(** * Shallow embedding of the lvSHP sprite editor core

    Sources: [src/src/shp.rs] (the [SHP] sprite type, its codec and
    renderer), [src/src/app.rs] (raster operations and the undo/redo
    history of [MixApp]) and [src/src/color_match.rs] (palette
    quantisation).

    Conventions of the embedding:
    - a [u8], [u16], [u32], [i32] or [usize] value is a [Z]; where the Rust
      code truncates or wraps ([as u16], [u32] multiplication) the wrap is
      written out with [Z.modulo]; arithmetic is release-mode (wrapping);
    - a [Vec<T>] is a [list T]; indexing [v[i]] panics out of range, which
      is modelled by [None] (or by an explicit crash outcome);
    - [Vec::pop] takes the last element: a stack is a list whose head is
      the top. *)

From Stdlib Require Import ZArith Lia.
From stdpp Require Import base list relations.

Open Scope Z_scope.

(* ------------------------------------------------------------------ *)
(** ** Rust helpers *)

Definition u32_wrap (z : Z) : Z := z mod 2 ^ 32.
Definition u16_wrap (z : Z) : Z := z mod 2 ^ 16.

(** [z as i32] for a [u32] value [z]. *)
Definition i32_of_u32 (z : Z) : Z :=
  let m := z mod 2 ^ 32 in if m <? 2 ^ 31 then m else m - 2 ^ 32.

(** [v[i] = x]: panics ([None]) when [i] is out of range. *)
Definition vec_set {A} (l : list A) (i : nat) (x : A) : option (list A) :=
  if bool_decide (i < length l)%nat then Some (<[i:=x]> l) else None.

(* ------------------------------------------------------------------ *)
(** ** The sprite ([shp.rs]: [Frame], [SHP], [SHP::new]) *)

Record Frame := mkFrame { pixels : list Z }.
Record SHP := mkSHP { width : Z; height : Z; frames : list Frame }.

(** [SHP::new]: [frames] copies of [vec![0u8; (width * height) as usize]],
    the product being a [u32] product. *)
Definition new (w h : Z) (n : nat) : SHP :=
  {| width := w; height := h;
     frames := replicate n {| pixels := replicate (Z.to_nat (u32_wrap (w * h))) 0 |} |}.

(** The value ranges of the Rust field types ([u32] sizes). *)
Definition u32_fields (s : SHP) : Prop :=
  0 <= width s < 2 ^ 32 /\ 0 <= height s < 2 ^ 32.

(** Replace the pixel buffer of frame [fi]. *)
Definition with_frame_pixels (s : SHP) (fi : nat) (px : list Z) : SHP :=
  {| width := width s; height := height s;
     frames := <[fi := {| pixels := px |}]> (frames s) |}.

(* ------------------------------------------------------------------ *)
(** ** Raster operations ([app.rs]) *)

(** [MixApp::frame_set_pixel]; [x], [y] are [i32]. *)
Definition frame_set_pixel (s : SHP) (frame_idx : nat) (x y color : Z) : option SHP :=
  if (length (frames s) <=? frame_idx)%nat then Some s
  else if (x <? 0) || (y <? 0) then Some s
  else if (width s <=? x) || (height s <=? y) then Some s
  else
    let i := u32_wrap (y * width s + x) in
    fr ← frames s !! frame_idx;
    px ← vec_set (pixels fr) (Z.to_nat i) color;
    Some (with_frame_pixels s frame_idx px).

(** [MixApp::frame_get_pixel]. *)
Definition frame_get_pixel (s : SHP) (frame_idx : nat) (x y : Z) : option Z :=
  if (x <? 0) || (y <? 0) then Some 0
  else if (length (frames s) <=? frame_idx)%nat || (width s <=? x) || (height s <=? y)
  then Some 0
  else
    let i := u32_wrap (y * width s + x) in
    fr ← frames s !! frame_idx;
    pixels fr !! Z.to_nat i.

(** [SHP::set_pixel]; [x], [y] are [u32]. *)
Definition set_pixel (s : SHP) (frame : nat) (x y index : Z) : option SHP :=
  if (length (frames s) <=? frame)%nat then Some s
  else if (width s <=? x) || (height s <=? y) then Some s
  else
    let i := u32_wrap (y * width s + x) in
    fr ← frames s !! frame;
    px ← vec_set (pixels fr) (Z.to_nat i) index;
    Some (with_frame_pixels s frame px).

(** Outcome of a [while] loop run with a fuel bound: it finished, it
    panicked, or the fuel ran out. *)
Inductive outcome (A : Type) : Type :=
  | Done (a : A)
  | Crash
  | OutOfFuel.
Arguments Done {A} a.
Arguments Crash {A}.
Arguments OutOfFuel {A}.

(** The [while let Some((px, py)) = stack.pop()] loop of
    [MixApp::flood_fill_on_frame]; [w], [h] are the [i32] sizes.  The
    four pushes leave [(px, py+1)] on top.  No [i32] overflow is possible:
    neighbours are pushed only from in-bounds points. *)
Fixpoint flood_loop (fuel : nat) (s : SHP) (fi : nat) (w h target new_color : Z)
    (stack : list (Z * Z)) : outcome SHP :=
  match fuel with
  | O => OutOfFuel
  | S fuel' =>
    match stack with
    | [] => Done s
    | (px, py) :: rest =>
      if (px <? 0) || (py <? 0) || (w <=? px) || (h <=? py)
      then flood_loop fuel' s fi w h target new_color rest
      else
        match frame_get_pixel s fi px py with
        | None => Crash
        | Some v =>
          if negb (v =? target)
          then flood_loop fuel' s fi w h target new_color rest
          else
            match frame_set_pixel s fi px py new_color with
            | None => Crash
            | Some s' =>
              flood_loop fuel' s' fi w h target new_color
                ((px, py + 1) :: (px, py - 1) :: (px + 1, py) :: (px - 1, py) :: rest)
            end
        end
    end
  end.

(** Fuel for the loop: two steps per pixel of the frame and then some;
    [flood_fill_terminates] shows that it never runs out. *)
Definition flood_fuel (s : SHP) (fi : nat) : nat :=
  match frames s !! fi with
  | Some fr => (2 + 4 * length (pixels fr))%nat
  | None => 2%nat
  end.

(** [MixApp::flood_fill_on_frame]. *)
Definition flood_fill_on_frame (s : SHP) (fi : nat) (x y new_color : Z) : outcome SHP :=
  if (length (frames s) <=? fi)%nat then Done s
  else
    let w := i32_of_u32 (width s) in
    let h := i32_of_u32 (height s) in
    match frame_get_pixel s fi x y with
    | None => Crash
    | Some target =>
      if target =? new_color then Done s
      else flood_loop (flood_fuel s fi) s fi w h target new_color [(x, y)]
    end.

(* ------------------------------------------------------------------ *)
(** ** Palette quantisation ([color_match.rs], [palette.rs]) *)

(** [egui::Color32]: four [u8] channels. *)
Record Color32 := mkColor { r : Z; g : Z; b : Z; a : Z }.

Definition from_rgb (r0 g0 b0 : Z) : Color32 := mkColor r0 g0 b0 255.

(** [Palette { colors: [Color32; 256] }]. *)
Record Palette := mkPalette { colors : list Color32 }.

Definition u8_ok (v : Z) : Prop := 0 <= v < 256.
Definition color_ok (c : Color32) : Prop :=
  u8_ok (r c) /\ u8_ok (g c) /\ u8_ok (b c) /\ u8_ok (a c).
(** The array type [[Color32; 256]]. *)
Definition palette_ok (p : Palette) : Prop :=
  length (colors p) = 256%nat /\ Forall color_ok (colors p).

(** [Palette::default_grayscale]: entry [i] is [(i, i, i)]. *)
Definition default_grayscale : Palette :=
  {| colors := map (fun i => from_rgb (Z.of_nat i) (Z.of_nat i) (Z.of_nat i)) (seq 0 256) |}.

(** [dist_rgb2]: the differences are [i32] (no overflow on [u8]
    channels), the sum is cast [as u32]. *)
Definition dist_rgb2 (x y : Color32) : Z :=
  let dr := r x - r y in
  let dg := g x - g y in
  let db := b x - b y in
  u32_wrap (dr * dr + dg * dg + db * db).

(** The [for i in 0..256u16] loop of [best_index_rgb], walking the 256
    palette entries in order, with its [break] on [d == 0]. *)
Fixpoint best_loop (color : Color32) (pal : list Color32) (i best best_d : Z) : Z :=
  match pal with
  | [] => best
  | c :: rest =>
    let d := dist_rgb2 color c in
    if d <? best_d then
      if d =? 0 then i else best_loop color rest (i + 1) i d
    else best_loop color rest (i + 1) best best_d
  end.

(** [best_index_rgb]: [best = 0], [best_d = u32::MAX]. *)
Definition best_index_rgb (color : Color32) (palette : list Color32) : Z :=
  best_loop color palette 0 0 (2 ^ 32 - 1).

(* ------------------------------------------------------------------ *)
(** ** Rendering ([SHP::egui_texture_with_brightness]) *)

Section Render.
(** The [f32] brightness and the per-channel colour scaling
    [((c as f32) * b).round().min(255.0) as u8] with
    [b = brightness.max(0.2).min(3.0)] are kept abstract: nothing
    below depends on them. *)
Variable Brightness : Type.
Variable scale_channel : Brightness -> Z -> Z.

(** The body of [for i in 0..total]: four bytes per pixel. *)
Fixpoint render_pixels (fr : list Z) (pal : Palette) (br : Brightness)
    (idxs : list nat) : option (list Z) :=
  match idxs with
  | [] => Some []
  | i :: rest =>
    idx ← fr !! i;
    c ← colors pal !! Z.to_nat idx;
    tl ← render_pixels fr pal br rest;
    Some (scale_channel br (r c) :: scale_channel br (g c) :: scale_channel br (b c)
          :: (if idx =? 0 then 0 else 255) :: tl)
  end.

(** The image handed to [ctx.load_texture]: its size and its RGBA bytes;
    [None] is a panic.  [ColorImage::from_rgba_unmultiplied] asserts that
    the byte count is [4 * w * h]. *)
Definition egui_texture_with_brightness (s : SHP) (frame : nat) (pal : Palette)
    (brightness : Brightness) : option (Z * Z * list Z) :=
  let pixels_u64 := width s * height s in
  if (pixels_u64 =? 0) || (64000000 <? pixels_u64) then Some (1, 1, [0; 0; 0; 255])
  else
    fr ← (if (frame <? length (frames s))%nat then frames s !! frame else frames s !! 0%nat);
    let total := Z.to_nat (u32_wrap (width s * height s)) in
    rgba ← render_pixels (pixels fr) pal brightness (seq 0 total);
    if bool_decide (Z.of_nat (length rgba) = 4 * width s * height s)
    then Some (width s, height s, rgba) else None.
End Render.

Arguments render_pixels {Brightness} scale_channel fr pal br idxs.
Arguments egui_texture_with_brightness {Brightness} scale_channel s frame pal brightness.

(* ------------------------------------------------------------------ *)
(** ** Undo / redo ([MixApp]) *)

(** The fields of [MixApp] the history touches.  Stacks are lists with
    the most recent snapshot first ([Vec::push]/[Vec::pop] at the head,
    [remove(0)] drops the last element).  The status text is not
    modelled. *)
Record App := mkApp {
  shp : option SHP;
  current_frame : nat;
  undo_stack : list (list Z);
  redo_stack : list (list Z);
  max_undo_steps : nat;
  undo_frame_anchor : option nat;
  dirty : bool }.

Definition set_history (ap : App) (s : option SHP) (u rd : list (list Z))
    (anchor : option nat) (d : bool) : App :=
  {| shp := s; current_frame := current_frame ap; undo_stack := u; redo_stack := rd;
     max_undo_steps := max_undo_steps ap; undo_frame_anchor := anchor; dirty := d |}.

(** [self.preview.current_frame.min(shp.frames.len().saturating_sub(1))]. *)
Definition active_index (ap : App) (s : SHP) : nat :=
  Nat.min (current_frame ap) (length (frames s) - 1).

(** [self.undo_frame_anchor.map_or(false, |a| a != fi)]. *)
Definition anchor_mismatch (anchor : option nat) (fi : nat) : bool :=
  match anchor with Some x => negb (x =? fi)%nat | None => false end.

(** [MixApp::undo]; [None] is a panic. *)
Definition undo (ap : App) : option App :=
  match shp ap with
  | None => Some ap
  | Some s =>
    let fi := active_index ap s in
    if anchor_mismatch (undo_frame_anchor ap) fi then
      Some (set_history ap (Some s) [] [] (Some fi) (dirty ap))
    else
      match undo_stack ap with
      | [] => Some ap
      | prev :: rest =>
        fr ← frames s !! fi;
        Some (set_history ap (Some (with_frame_pixels s fi prev)) rest
                (pixels fr :: redo_stack ap) (undo_frame_anchor ap) true)
      end
  end.

(** [MixApp::redo]. *)
Definition redo (ap : App) : option App :=
  match shp ap with
  | None => Some ap
  | Some s =>
    let fi := active_index ap s in
    if anchor_mismatch (undo_frame_anchor ap) fi then
      Some (set_history ap (Some s) [] [] (Some fi) (dirty ap))
    else
      match redo_stack ap with
      | [] => Some ap
      | next_ :: rest =>
        fr ← frames s !! fi;
        Some (set_history ap (Some (with_frame_pixels s fi next_))
                (pixels fr :: undo_stack ap) rest (undo_frame_anchor ap) true)
      end
  end.

(** Recording an undo point: the snapshot [shp.frames[frame_idx].pixels]
    taken when a stroke starts, pushed after the canvas panel (the
    [pending_undo] block of [MixApp::update]). *)
Definition record (ap : App) : option App :=
  match shp ap with
  | None => Some ap
  | Some s =>
    let fi := active_index ap s in
    fr ← frames s !! fi;
    let u := pixels fr :: undo_stack ap in
    let u := if (max_undo_steps ap <? length u)%nat then removelast u else u in
    Some (set_history ap (Some s) u [] (Some fi) (dirty ap))
  end.

(** Moving the active frame (frame slider, arrow keys). *)
Definition switch_frame (k : nat) (ap : App) : App :=
  {| shp := shp ap; current_frame := k; undo_stack := undo_stack ap;
     redo_stack := redo_stack ap; max_undo_steps := max_undo_steps ap;
     undo_frame_anchor := undo_frame_anchor ap; dirty := dirty ap |}.

(* ------------------------------------------------------------------ *)
(** ** The codec ([SHP::load], [SHP::save]) *)

(** The [Err] messages of [shp.rs]; [UnexpectedEof] is the [read_exact]
    failure ("failed to fill whole buffer") and [Panic] a failed [Vec]
    index. *)
Inductive shp_error :=
  | HeaderTooShort        (* "SHP头不足" *)
  | NotAnShp              (* "不是有效的SHP文件" *)
  | InvalidSize           (* "无效SHP尺寸/帧数" *)
  | DataOffsetOutOfRange  (* "SHP数据偏移越界" *)
  | UnexpectedEof
  | NoFrames              (* "没有帧" *)
  | Panic.

Inductive result (A : Type) : Type :=
  | Ok (x : A)
  | Err (e : shp_error).
Arguments Ok {A} x.
Arguments Err {A} e.

(** A [Cursor<&[u8]>] reader: it consumes a prefix of the bytes left. *)
Definition reader (A : Type) : Type := list Z -> result (A * list Z).

Definition rret {A} (x : A) : reader A := fun src => Ok (x, src).
Definition rfail {A} (e : shp_error) : reader A := fun _ => Err e.
Definition rbind {A B} (m : reader A) (k : A -> reader B) : reader B :=
  fun src => match m src with Ok (x, src') => k x src' | Err e => Err e end.
(** A step that does not read ([?] on a [Result]). *)
Definition rlift {A} (m : result A) : reader A :=
  fun src => match m with Ok x => Ok (x, src) | Err e => Err e end.

Declare Scope reader_scope.
Notation "x <-- m ;; k" := (rbind m (fun x => k))
  (at level 100, m at next level, right associativity) : reader_scope.
Open Scope reader_scope.

(** [read_exact] of [n] bytes. *)
Definition read_exact (n : nat) : reader (list Z) :=
  fun src => if (length src <? n)%nat then Err UnexpectedEof else Ok (take n src, drop n src).

Definition read_u8 : reader Z :=
  fun src => match src with [] => Err UnexpectedEof | v :: rest => Ok (v, rest) end.

(** [u16::from_le_bytes], [u32::from_le_bytes]. *)
Definition le_value (bs : list Z) : Z := fold_right (fun v acc => v + 256 * acc) 0 bs.
Definition read_u16 : reader Z := bs <-- read_exact 2 ;; rret (le_value bs).
Definition read_u32 : reader Z := bs <-- read_exact 4 ;; rret (le_value bs).

(** [FHeader] (the [frameColor] and the reserved [i32] are read and
    dropped). *)
Record FHeader := mkFHeader { fx : Z; fy : Z; fw : Z; fh : Z; flags : Z; data_off : Z }.

Definition read_fheader : reader FHeader :=
  x <-- read_u16 ;; y <-- read_u16 ;; ww <-- read_u16 ;; hh <-- read_u16 ;;
  fl <-- read_u32 ;; _c <-- read_exact 4 ;; _z <-- read_u32 ;; off <-- read_u32 ;;
  rret {| fx := x; fy := y; fw := ww; fh := hh; flags := fl; data_off := off |}.

Fixpoint read_fheaders (n : nat) : reader (list FHeader) :=
  match n with
  | O => rret []
  | S k => fh0 <-- read_fheader ;; rest <-- read_fheaders k ;; rret (fh0 :: rest)
  end.

(** [if x_abs < w && y_abs < h { pixels[y_abs * w + x_abs] = v; }]
    ([usize] arithmetic). *)
Definition put_pixel (w h x y v : Z) (px : list Z) : result (list Z) :=
  if (x <? w) && (y <? h) then
    match vec_set px (Z.to_nat (y * w + x)) v with Some p => Ok p | None => Err Panic end
  else Ok px.

Definition usize_wrap (z : Z) : Z := z mod 2 ^ 64.
Definition usize_saturating_add (x y : Z) : Z := Z.min (x + y) (2 ^ 64 - 1).

(** The [while remaining > 0] loop of an RLE0 row.  [remaining -= 1]
    after the count byte is a wrapping [usize] subtraction. *)
Fixpoint rle0_row (w h y : Z) (remaining x : Z) (px : list Z) (src : list Z)
    {struct src} : result (list Z * list Z) :=
  if remaining =? 0 then Ok (px, src)
  else
    match src with
    | [] => Err UnexpectedEof
    | v :: src1 =>
      let remaining1 := remaining - 1 in
      if v =? 0 then
        match src1 with
        | [] => Err UnexpectedEof
        | c :: src2 =>
          rle0_row w h y (usize_wrap (remaining1 - 1)) (usize_saturating_add x c) px src2
        end
      else
        match put_pixel w h x y v px with
        | Ok px' => rle0_row w h y remaining1 (x + 1) px' src1
        | Err e => Err e
        end
    end.

(** The [while remaining > 0] loop of a scanline row. *)
Fixpoint scan_row (w h y : Z) (remaining x : Z) (px : list Z) (src : list Z)
    {struct src} : result (list Z * list Z) :=
  if remaining =? 0 then Ok (px, src)
  else
    match src with
    | [] => Err UnexpectedEof
    | v :: src1 =>
      match put_pixel w h x y v px with
      | Ok px' => scan_row w h y (remaining - 1) (x + 1) px' src1
      | Err e => Err e
      end
    end.

(** [for v in row { ...; x_abs += 1 }] of an uncompressed row. *)
Fixpoint raw_row (w h y x : Z) (row : list Z) (px : list Z) : result (list Z) :=
  match row with
  | [] => Ok px
  | v :: rest =>
    match put_pixel w h x y v px with
    | Ok px' => raw_row w h y (x + 1) rest px'
    | Err e => Err e
    end
  end.

(** [for _ in 0..fh.h] over the rows of each compression scheme. *)
Fixpoint rle0_rows (w h : Z) (fh0 : FHeader) (rows : nat) (y : Z) (px : list Z)
    : reader (list Z) :=
  match rows with
  | O => rret px
  | S k =>
    len <-- read_u16 ;;
    px' <-- rle0_row w h y (Z.max (len - 2) 0) (fx fh0) px ;;
    rle0_rows w h fh0 k (y + 1) px'
  end.

Fixpoint scan_rows (w h : Z) (fh0 : FHeader) (rows : nat) (y : Z) (px : list Z)
    : reader (list Z) :=
  match rows with
  | O => rret px
  | S k =>
    len <-- read_u16 ;;
    px' <-- scan_row w h y (Z.max (len - 2) 0) (fx fh0) px ;;
    scan_rows w h fh0 k (y + 1) px'
  end.

Fixpoint raw_rows (w h : Z) (fh0 : FHeader) (rows : nat) (y : Z) (px : list Z)
    : reader (list Z) :=
  match rows with
  | O => rret px
  | S k =>
    row <-- read_exact (Z.to_nat (fw fh0)) ;;
    px' <-- rlift (raw_row w h y (fx fh0) row px) ;;
    raw_rows w h fh0 k (y + 1) px'
  end.

Definition is_rle0 (fl : Z) : bool := Z.land fl 3 =? 3.
Definition is_scan (fl : Z) : bool := (Z.land fl 2 =? 2) && (Z.land fl 1 =? 0).

(** Decoding one frame (the body of [for fh in fhs]). *)
Definition decode_frame (bytes : list Z) (w h : Z) (fh0 : FHeader) : result Frame :=
  let px := replicate (Z.to_nat (u32_wrap (w * h))) 0 in
  if (data_off fh0 =? 0) || (fw fh0 =? 0) || (fh fh0 =? 0) then Ok {| pixels := px |}
  else if (length bytes <=? Z.to_nat (data_off fh0))%nat then Err DataOffsetOutOfRange
  else
    let src := drop (Z.to_nat (data_off fh0)) bytes in
    let rows := Z.to_nat (fh fh0) in
    let run := if is_rle0 (flags fh0) then rle0_rows w h fh0 rows (fy fh0) px
               else if is_scan (flags fh0) then scan_rows w h fh0 rows (fy fh0) px
               else raw_rows w h fh0 rows (fy fh0) px in
    match run src with
    | Ok (px', _) => Ok {| pixels := px' |}
    | Err e => Err e
    end.

Fixpoint decode_frames (bytes : list Z) (w h : Z) (fhs : list FHeader) : result (list Frame) :=
  match fhs with
  | [] => Ok []
  | fh0 :: rest =>
    match decode_frame bytes w h fh0 with
    | Ok fr =>
      match decode_frames bytes w h rest with
      | Ok frs => Ok (fr :: frs)
      | Err e => Err e
      end
    | Err e => Err e
    end
  end.

(** [SHP::load]. *)
Definition load_body (bytes : list Z) : reader SHP :=
  zero <-- read_u16 ;;
  if negb (zero =? 0) then rfail NotAnShp
  else
    w <-- read_u16 ;; h <-- read_u16 ;; n <-- read_u16 ;;
    if (w =? 0) || (h =? 0) || (n =? 0) then rfail InvalidSize
    else
      fhs <-- read_fheaders (Z.to_nat n) ;;
      frs <-- rlift (decode_frames bytes w h fhs) ;;
      rret {| width := w; height := h; frames := frs |}.

Definition load (bytes : list Z) : result SHP :=
  if (length bytes <? 8)%nat then Err HeaderTooShort
  else match load_body bytes bytes with Ok (s, _) => Ok s | Err e => Err e end.

(** [v.to_le_bytes()] of a value already in range. *)
Definition le16 (v : Z) : list Z := [v mod 256; (v / 256) mod 256].
Definition le32 (v : Z) : list Z :=
  [v mod 256; (v / 256) mod 256; (v / 2 ^ 16) mod 256; (v / 2 ^ 24) mod 256].

Fixpoint foldM_opt {A B} (f : A -> B -> option A) (x : A) (l : list B) : option A :=
  match l with
  | [] => Some x
  | y :: rest => x' ← f x y; foldM_opt f x' rest
  end.

(** [0..n] as a list of [Z]. *)
Definition zrange (n : Z) : list Z := map Z.of_nat (seq 0 (Z.to_nat n)).

(** [block[y * width + x] = self.frames[fi].pixels[y * width + x]]. *)
Definition copy_cell (w : Z) (src : list Z) (blk : list Z) (yx : Z * Z) : option (list Z) :=
  let i := Z.to_nat (yx.1 * w + yx.2) in
  v ← src !! i; vec_set blk i v.

(** The copy of one frame into a block of [width * height] (a [u32]
    product) bytes, rows outer, columns inner. *)
Definition copy_block (w h : Z) (fr : Frame) : option (list Z) :=
  foldM_opt (copy_cell w (pixels fr)) (replicate (Z.to_nat (u32_wrap (w * h))) 0)
    (flat_map (fun y => map (fun x => (y, x)) (zrange w)) (zrange h)).

Fixpoint mapM_opt {A B} (f : A -> option B) (l : list A) : option (list B) :=
  match l with
  | [] => Some []
  | x :: rest => y ← f x; ys ← mapM_opt f rest; Some (y :: ys)
  end.

(** The data offsets: [0] for an all-zero block, else the running
    [u32] cursor, advanced with [saturating_add]. *)
Fixpoint data_offsets (cursor : Z) (blocks : list (list Z)) : list Z :=
  match blocks with
  | [] => []
  | blk :: rest =>
    if forallb (fun v => v =? 0) blk then 0 :: data_offsets cursor rest
    else cursor :: data_offsets (Z.min (cursor + u32_wrap (Z.of_nat (length blk))) (2 ^ 32 - 1)) rest
  end.

(** One 24-byte frame header written by [save]. *)
Definition frame_header_bytes (w h off : Z) : list Z :=
  le16 0 ++ le16 0 ++ le16 (u16_wrap w) ++ le16 (u16_wrap h) ++ le32 0
  ++ [0; 0; 0; 0] ++ le32 0 ++ le32 off.

(** [SHP::save]. *)
Definition save (s : SHP) : result (list Z) :=
  match frames s with
  | [] => Err NoFrames
  | _ =>
    let n := length (frames s) in
    let header_size := (8 + 24 * Z.of_nat n) in
    match mapM_opt (copy_block (width s) (height s)) (frames s) with
    | None => Err Panic
    | Some blocks =>
      let offs := data_offsets (u32_wrap header_size) blocks in
      Ok (le16 0 ++ le16 (u16_wrap (width s)) ++ le16 (u16_wrap (height s))
          ++ le16 (u16_wrap (Z.of_nat n))
          ++ flat_map (frame_header_bytes (width s) (height s)) offs
          ++ flat_map (fun ob => if ob.1 =? 0 then [] else ob.2) (zip offs blocks))
    end
  end.

(* ------------------------------------------------------------------ *)
(** ** Invariants and vocabulary of the claims *)

(** A sprite as [SHP::new] makes it and the raster operations keep it:
    [u32] sizes whose product fits a [u32], and every frame a buffer of
    [width * height] bytes. *)
Definition frame_wf (w h : Z) (fr : Frame) : Prop :=
  length (pixels fr) = Z.to_nat (w * h) /\ Forall u8_ok (pixels fr).

Definition wf (s : SHP) : Prop :=
  u32_fields s /\ width s * height s < 2 ^ 32 /\ Forall (frame_wf (width s) (height s)) (frames s).


(** A coordinate outside the canvas. *)
Definition outside (s : SHP) (x y : Z) : Prop :=
  x < 0 \/ y < 0 \/ width s <= x \/ height s <= y.

(** The frame the renderer draws. *)
Definition rendered_frame (s : SHP) (frame : nat) : option Frame :=
  if (frame <? length (frames s))%nat then frames s !! frame else frames s !! 0%nat.

(** Squared Euclidean RGB distance (alpha ignored), as the spec states it. *)
Definition sq_dist (x y : Color32) : Z :=
  (r x - r y) ^ 2 + (g x - g y) ^ 2 + (b x - b y) ^ 2.

(** The four 16-bit header fields read from the first 8 bytes. *)
Definition header_field (bytes : list Z) (k : nat) : Z :=
  le_value (take 2 (drop (2 * k) bytes)).

(** The RLE0 row payload as the spec describes it: literal bytes and
    zero runs. *)
Inductive rle0_token :=
  | Lit (v : Z)
  | Skip (n : Z).

Definition token_bytes (t : rle0_token) : list Z :=
  match t with Lit v => [v] | Skip n => [0; n] end.

Definition token_ok (t : rle0_token) : Prop :=
  match t with Lit v => 0 < v < 256 | Skip n => 0 <= n < 256 end.

(** Spec reading of a row: a literal is written at the cursor (dropped
    outside the canvas) and the cursor moves by one; a run moves the
    cursor by its count without writing. *)
Fixpoint apply_tokens (w h y x : Z) (toks : list rle0_token) (px : list Z) : result (list Z) :=
  match toks with
  | [] => Ok px
  | Lit v :: rest =>
    match put_pixel w h x y v px with
    | Ok px' => apply_tokens w h y (x + 1) rest px'
    | Err e => Err e
    end
  | Skip n :: rest => apply_tokens w h y (x + n) rest px
  end.

(** A file holding one 4x1 RLE0 frame whose data is [row]. *)
Definition rle0_file (row : list Z) : list Z :=
  [0; 0; 4; 0; 1; 0; 1; 0] ++
  [0; 0; 0; 0; 4; 0; 1; 0; 3; 0; 0; 0; 0; 0; 0; 0; 0; 0; 0; 0; 32; 0; 0; 0] ++ row.

(** An editing session on a 2x2, 2-frame sprite whose frame 1 holds a
    drawing, with empty history, frame 0 active. *)
Definition demo_sprite : SHP :=
  {| width := 2; height := 2;
     frames := [{| pixels := [0; 0; 0; 0] |}; {| pixels := [3; 0; 0; 5] |}] |}.

Definition demo_app : App :=
  {| shp := Some demo_sprite; current_frame := 0; undo_stack := []; redo_stack := [];
     max_undo_steps := 100; undo_frame_anchor := Some 0%nat; dirty := false |}.






(* ------------------------------------------------------------------ *)
(** ** Palette files ([Palette::from_bytes], [Palette::to_bytes]) *)

(** [Palette::from_bytes]: [None] is the [Err] returned for fewer than
    768 bytes; after that check every read [bytes[i * 3 + k]] is in
    range, so [nth] never takes its default. *)
Definition from_bytes (bytes : list Z) : option Palette :=
  if (length bytes <? 256 * 3)%nat then None
  else Some {| colors := map (fun i => from_rgb (nth (i * 3) bytes 0) (nth (i * 3 + 1) bytes 0)
                                              (nth (i * 3 + 2) bytes 0)) (seq 0 256) |}.

(** [Palette::to_bytes]: the red, green and blue bytes of every entry. *)
Definition to_bytes (p : Palette) : list Z :=
  flat_map (fun c => [r c; g c; b c]) (colors p).

(* ------------------------------------------------------------------ *)
(** ** Animation preview ([PreviewState::tick]) *)

Definition u64_wrap (z : Z) : Z := z mod 2 ^ 64.

(** [PreviewState]; [last_tick] is an [Instant] and is not modelled: the
    milliseconds elapsed since it ([dt.as_millis()], a [u128]) are an
    input of [tick]. *)
Module Preview.
Record PreviewState := mkPreview {
  playing : bool;
  current_frame : Z;
  ms_per_frame : Z;
  accumulator_ms : Z }.
End Preview.

(** The [while self.accumulator_ms >= self.ms_per_frame] loop on
    [(accumulator_ms, current_frame, advanced)]; the [usize] [+ 1] on the
    frame wraps. *)
Fixpoint tick_loop (fuel : nat) (ms frame_count : Z) (acc cur advanced : Z)
    : outcome (Z * Z * Z) :=
  match fuel with
  | O => OutOfFuel
  | S fuel' =>
    if ms <=? acc then
      tick_loop fuel' ms frame_count (acc - ms) (usize_wrap (cur + 1) mod frame_count)
        (advanced + 1)
    else Done (acc, cur, advanced)
  end.

(** Fuel for the loop: one pass per whole [ms_per_frame] in the
    accumulator and the final test ([Z.div] by [0] is [0]). *)
Definition tick_fuel (acc ms : Z) : nat := S (Z.to_nat (acc / ms)).

(** [PreviewState::tick]: the new state and the value returned. *)
Definition tick (elapsed_ms frame_count : Z) (p : Preview.PreviewState)
    : outcome (Preview.PreviewState * option Z) :=
  if negb (Preview.playing p) || (frame_count =? 0) then Done (p, None)
  else
    let acc := Z.min (Preview.accumulator_ms p + u64_wrap elapsed_ms) (2 ^ 64 - 1) in
    match tick_loop (tick_fuel acc (Preview.ms_per_frame p)) (Preview.ms_per_frame p)
            frame_count acc (Preview.current_frame p) 0 with
    | Done (acc', cur', advanced) =>
      Done ({| Preview.playing := Preview.playing p; Preview.current_frame := cur';
               Preview.ms_per_frame := Preview.ms_per_frame p;
               Preview.accumulator_ms := acc' |},
            if 0 <? advanced then Some cur' else None)
    | Crash => Crash
    | OutOfFuel => OutOfFuel
    end.

(* ------------------------------------------------------------------ *)
(** ** Editing session ([MixApp::update]) *)

(** The anchor check of the bottom panel, run by [MixApp::update] on
    every frame after the frame controls. *)
Definition sync_anchor (ap : App) : App :=
  match shp ap with
  | None => ap
  | Some s =>
    let cur := active_index ap s in
    match undo_frame_anchor ap with
    | None => set_history ap (Some s) (undo_stack ap) (redo_stack ap) (Some cur) (dirty ap)
    | Some anchor =>
      if negb (anchor =? cur)%nat then set_history ap (Some s) [] [] (Some cur) (dirty ap)
      else ap
    end
  end.

(** A raster tool run by the canvas panel on the active frame
    [frame_idx]; it sets [self.dirty = true]. *)
Definition apply_tool (tool : SHP -> nat -> option SHP) (ap : App) : option App :=
  match shp ap with
  | None => Some ap
  | Some s =>
    s' ← tool s (active_index ap s);
    Some (set_history ap (Some s') (undo_stack ap) (redo_stack ap) (undo_frame_anchor ap) true)
  end.

(* ------------------------------------------------------------------ *)
(** ** More raster operations ([app.rs], [shp.rs]) *)

(** [lo..=hi]. *)
Definition zrange_incl (lo hi : Z) : list Z :=
  map (fun k => lo + Z.of_nat k) (seq 0 (Z.to_nat (hi - lo + 1))).

(** [MixApp::fill_rect_on_frame]: rows outer, columns inner. *)
Definition fill_rect_on_frame (s : SHP) (fi : nat) (x0 y0 x1 y1 color : Z) : option SHP :=
  let '(lx, rx) := if x0 <=? x1 then (x0, x1) else (x1, x0) in
  let '(ty, by_) := if y0 <=? y1 then (y0, y1) else (y1, y0) in
  foldM_opt (fun s' (yx : Z * Z) => frame_set_pixel s' fi yx.2 yx.1 color) s
    (flat_map (fun y => map (fun x => (y, x)) (zrange_incl lx rx)) (zrange_incl ty by_)).

(** [image::RgbaImage]: [width * height] pixels of four bytes, row by
    row. *)
Record RgbaImage := mkRgbaImage { img_width : Z; img_height : Z; img_data : list Z }.

(** [RgbaImage::get_pixel]; [None] is its out-of-bounds panic. *)
Definition get_pixel (im : RgbaImage) (x y : Z) : option (Z * Z * Z * Z) :=
  if (img_width im <=? x) || (img_height im <=? y) then None
  else
    let i := Z.to_nat (4 * (y * img_width im + x)) in
    r0 ← img_data im !! i; g0 ← img_data im !! (i + 1)%nat;
    b0 ← img_data im !! (i + 2)%nat; a0 ← img_data im !! (i + 3)%nat;
    Some (r0, g0, b0, a0).

(** An [i32] sum, wrapping: the same two's-complement reading as
    [i32_of_u32]. *)
Definition i32_wrap (z : Z) : Z := i32_of_u32 z.

(** The body of the inner loop of [SHP::paste_rgba_at]. *)
Definition paste_cell (fw fh dest_x dest_y : Z) (pal : list Color32) (rgba : RgbaImage)
    (frame : nat) (s : SHP) (yx : Z * Z) : option SHP :=
  let '(y, x) := yx in
  match get_pixel rgba x y with
  | None => None
  | Some (r0, g0, b0, a0) =>
    if a0 <? 8 then Some s
    else
      let idx := best_index_rgb (from_rgb r0 g0 b0) pal in
      let tx := i32_wrap (x + dest_x) in
      let ty := i32_wrap (y + dest_y) in
      if (0 <=? tx) && (0 <=? ty) && (tx <? fw) && (ty <? fh) then
        let i := u32_wrap (ty * width s + tx) in
        fr ← frames s !! frame;
        px ← vec_set (pixels fr) (Z.to_nat i) idx;
        Some (with_frame_pixels s frame px)
      else Some s
  end.

(** [SHP::paste_rgba_at]. *)
Definition paste_rgba_at (s : SHP) (frame : nat) (rgba : RgbaImage) (dest_x dest_y : Z)
    (pal : Palette) : option SHP :=
  if (length (frames s) <=? frame)%nat then Some s
  else
    let fw := i32_of_u32 (width s) in
    let fh := i32_of_u32 (height s) in
    let iw := i32_of_u32 (img_width rgba) in
    let ih := i32_of_u32 (img_height rgba) in
    foldM_opt (paste_cell fw fh dest_x dest_y (colors pal) rgba frame) s
      (flat_map (fun y => map (fun x => (y, x)) (zrange iw)) (zrange ih)).

(* ------------------------------------------------------------------ *)
(** ** Editing sessions, decoder safety and line drawing *)

(** A tool that rewrites at most the pixel buffer of the frame it is
    given. *)
Definition tool_local (tool : SHP -> nat -> option SHP) : Prop :=
  forall s fi s', tool s fi = Some s' -> exists px, s' = with_frame_pixels s fi px.

(** The undo and redo stacks hold at most [max_undo_steps] snapshots
    together. *)
Definition history_ok (ap : App) : Prop :=
  (length (undo_stack ap) + length (redo_stack ap) <= max_undo_steps ap)%nat.

(** What an editing session does to the history, one step at a time. *)
Inductive session_step : App -> App -> Prop :=
  | step_record ap ap' : record ap = Some ap' -> session_step ap ap'
  | step_undo ap ap' : undo ap = Some ap' -> session_step ap ap'
  | step_redo ap ap' : redo ap = Some ap' -> session_step ap ap'
  | step_sync ap : session_step ap (sync_anchor ap)
  | step_switch k ap : session_step ap (switch_frame k ap)
  | step_tool tool ap ap' : apply_tool tool ap = Some ap' -> session_step ap ap'.

(** A reader run on [u8] bytes either fails with an error other than a
    panic or returns a value satisfying [P] and leaves [u8] bytes. *)
Definition reader_safe {A} (P : A -> Prop) (m : reader A) : Prop :=
  forall src, Forall u8_ok src ->
    match m src with Ok (x, src') => P x /\ Forall u8_ok src' | Err e => e <> Panic end.

Definition result_safe {A} (P : A -> Prop) (r : result A) : Prop :=
  match r with Ok x => P x | Err e => e <> Panic end.

(** A pixel buffer of a [w * h] canvas as the decoder keeps it. *)
Definition buf_ok (w h : Z) (px : list Z) : Prop :=
  length px = Z.to_nat (w * h) /\ Forall u8_ok px.

(** The [loop] of [MixApp::draw_line_on_frame]; [i32] arithmetic wraps. *)
Fixpoint line_loop (fuel : nat) (s : SHP) (fi : nat) (x0 y0 x1 y1 dx dy sx sy err color : Z)
    : outcome SHP :=
  match fuel with
  | O => OutOfFuel
  | S fuel' =>
    match frame_set_pixel s fi x0 y0 color with
    | None => Crash
    | Some s1 =>
      if (x0 =? x1) && (y0 =? y1) then Done s1
      else
        let e2 := i32_wrap (2 * err) in
        let '(err1, x0') :=
          if dy <=? e2 then (i32_wrap (err + dy), i32_wrap (x0 + sx)) else (err, x0) in
        let '(err2, y0') :=
          if e2 <=? dx then (i32_wrap (err1 + dx), i32_wrap (y0 + sy)) else (err1, y0) in
        line_loop fuel' s1 fi x0' y0' x1 y1 dx dy sx sy err2 color
    end
  end.

(** [MixApp::draw_line_on_frame], run with fuel for [dx - dy + 1]
    iterations. *)
Definition draw_line_on_frame (s : SHP) (fi : nat) (x0 y0 x1 y1 color : Z) : outcome SHP :=
  let dx := i32_wrap (Z.abs (i32_wrap (x1 - x0))) in
  let sx := if x0 <? x1 then 1 else -1 in
  let dy := i32_wrap (- i32_wrap (Z.abs (i32_wrap (y1 - y0)))) in
  let sy := if y0 <? y1 then 1 else -1 in
  let err := i32_wrap (dx + dy) in
  line_loop (S (Z.to_nat (dx - dy))) s fi x0 y0 x1 y1 dx dy sx sy err color.

Definition outcome_bind {A B} (m : outcome A) (k : A -> outcome B) : outcome B :=
  match m with Done a => k a | Crash => Crash | OutOfFuel => OutOfFuel end.

(** [MixApp::draw_rect_on_frame]: four lines, top, bottom, left, right. *)
Definition draw_rect_on_frame (s : SHP) (fi : nat) (x0 y0 x1 y1 color : Z) : outcome SHP :=
  let '(lx, rx) := if x0 <=? x1 then (x0, x1) else (x1, x0) in
  let '(ty, by_) := if y0 <=? y1 then (y0, y1) else (y1, y0) in
  outcome_bind (draw_line_on_frame s fi lx ty rx ty color) (fun s1 =>
  outcome_bind (draw_line_on_frame s1 fi lx by_ rx by_ color) (fun s2 =>
  outcome_bind (draw_line_on_frame s2 fi lx ty lx by_ color) (fun s3 =>
  draw_line_on_frame s3 fi rx ty rx by_ color))).

(** The eight points [MixApp::draw_circle_on_frame] paints for one
    [(x, y)], in the order of its [pts] array. *)
Definition circle_points (cx cy x y : Z) : list (Z * Z) :=
  [(i32_wrap (cx + x), i32_wrap (cy + y)); (i32_wrap (cx + y), i32_wrap (cy + x));
   (i32_wrap (cx - y), i32_wrap (cy + x)); (i32_wrap (cx - x), i32_wrap (cy + y));
   (i32_wrap (cx - x), i32_wrap (cy - y)); (i32_wrap (cx - y), i32_wrap (cy - x));
   (i32_wrap (cx + y), i32_wrap (cy - x)); (i32_wrap (cx + x), i32_wrap (cy - y))].

(** The [while x >= y] loop of [MixApp::draw_circle_on_frame]. *)
Fixpoint circle_loop (fuel : nat) (s : SHP) (fi : nat) (cx cy x y err color : Z) : outcome SHP :=
  match fuel with
  | O => OutOfFuel
  | S fuel' =>
    if y <=? x then
      match foldM_opt (fun s' (p : Z * Z) => frame_set_pixel s' fi p.1 p.2 color) s
              (circle_points cx cy x y) with
      | None => Crash
      | Some s1 =>
        let y' := i32_wrap (y + 1) in
        if err <? 0 then
          circle_loop fuel' s1 fi cx cy x y' (i32_wrap (err + i32_wrap (i32_wrap (2 * y') + 1))) color
        else
          let x' := i32_wrap (x - 1) in
          circle_loop fuel' s1 fi cx cy x' y'
            (i32_wrap (err + i32_wrap (i32_wrap (2 * i32_wrap (y' - x')) + 1))) color
      end
    else Done s
  end.

(** [MixApp::draw_circle_on_frame]; the loop runs at most [radius + 1]
    times. *)
Definition draw_circle_on_frame (s : SHP) (fi : nat) (cx cy radius color : Z) : outcome SHP :=
  if radius <=? 0 then Done s
  else circle_loop (Z.to_nat (radius + 2)) s fi cx cy radius 0 (i32_wrap (1 - radius)) color.

(* ================================================================== *)
(** * Properties *)

(** ** Basic facts *)

Lemma frames_with_frame_pixels (s : SHP) (fi k : nat) (px : list Z) :
  frames (with_frame_pixels s fi px) !! k =
    if decide (k = fi) then (if bool_decide (fi < length (frames s))%nat
                             then Some {| pixels := px |} else None)
    else frames s !! k.
Proof.
  unfold with_frame_pixels; simpl.
  destruct (decide (k = fi)) as [->|Hne].
  - case_bool_decide.
    + by rewrite list_lookup_insert_eq.
    + rewrite list_insert_ge by lia. apply lookup_ge_None_2. lia.
  - by rewrite list_lookup_insert_ne.
Qed.

Lemma length_frames_with_frame_pixels (s : SHP) (fi : nat) (px : list Z) :
  length (frames (with_frame_pixels s fi px)) = length (frames s).
Proof. unfold with_frame_pixels; simpl. apply length_insert. Qed.

Lemma frame_get_pixel_inside (s : SHP) (fi : nat) (x y : Z) (fr : Frame) :
  frames s !! fi = Some fr -> 0 <= x < width s -> 0 <= y < height s ->
  frame_get_pixel s fi x y = pixels fr !! Z.to_nat (u32_wrap (y * width s + x)).
Proof.
  intros Hfr Hx Hy. pose proof (lookup_lt_Some _ _ _ Hfr) as Hlt.
  unfold frame_get_pixel.
  replace ((x <? 0) || (y <? 0)) with false by (symmetry; apply orb_false_iff; split; apply Z.ltb_ge; lia).
  replace ((length (frames s) <=? fi)%nat || (width s <=? x) || (height s <=? y)) with false
    by (symmetry; repeat rewrite orb_false_iff; repeat split;
        [apply Nat.leb_gt | apply Z.leb_gt | apply Z.leb_gt]; lia).
  by rewrite Hfr.
Qed.

Lemma frame_set_pixel_inside (s : SHP) (fi : nat) (x y c : Z) (fr : Frame) :
  frames s !! fi = Some fr -> 0 <= x < width s -> 0 <= y < height s ->
  frame_set_pixel s fi x y c =
    (px ← vec_set (pixels fr) (Z.to_nat (u32_wrap (y * width s + x))) c;
     Some (with_frame_pixels s fi px)).
Proof.
  intros Hfr Hx Hy. pose proof (lookup_lt_Some _ _ _ Hfr) as Hlt.
  unfold frame_set_pixel.
  replace (length (frames s) <=? fi)%nat with false by (symmetry; apply Nat.leb_gt; lia).
  replace ((x <? 0) || (y <? 0)) with false by (symmetry; apply orb_false_iff; split; apply Z.ltb_ge; lia).
  replace ((width s <=? x) || (height s <=? y)) with false
    by (symmetry; apply orb_false_iff; split; apply Z.leb_gt; lia).
  by rewrite Hfr.
Qed.

Lemma frame_set_pixel_outside (s : SHP) (fi : nat) (x y c : Z) :
  outside s x y -> frame_set_pixel s fi x y c = Some s.
Proof.
  intros Hout. unfold frame_set_pixel.
  destruct (length (frames s) <=? fi)%nat; [done |].
  destruct Hout as [H | [H | [H | H]]].
  - by replace (x <? 0) with true by (symmetry; apply Z.ltb_lt; lia).
  - replace (y <? 0) with true by (symmetry; apply Z.ltb_lt; lia).
    by rewrite orb_true_r.
  - destruct ((x <? 0) || (y <? 0)); [done |].
    by replace (width s <=? x) with true by (symmetry; apply Z.leb_le; lia).
  - destruct ((x <? 0) || (y <? 0)); [done |].
    replace (height s <=? y) with true by (symmetry; apply Z.leb_le; lia).
    by rewrite orb_true_r.
Qed.

Lemma frame_get_pixel_outside (s : SHP) (fi : nat) (x y : Z) :
  outside s x y -> frame_get_pixel s fi x y = Some 0.
Proof.
  intros Hout. unfold frame_get_pixel.
  destruct Hout as [H | [H | [H | H]]].
  - by replace (x <? 0) with true by (symmetry; apply Z.ltb_lt; lia).
  - replace (y <? 0) with true by (symmetry; apply Z.ltb_lt; lia).
    by rewrite orb_true_r.
  - destruct ((x <? 0) || (y <? 0)); [done |].
    replace (width s <=? x) with true by (symmetry; apply Z.leb_le; lia).
    by rewrite orb_true_r, orb_true_l.
  - destruct ((x <? 0) || (y <? 0)); [done |].
    replace (height s <=? y) with true by (symmetry; apply Z.leb_le; lia).
    by rewrite orb_true_r.
Qed.

(** ** Out-of-canvas coordinates (C4) *)

(** C4: for every sprite, frame index and coordinate outside the canvas
    ([x < 0], [y < 0], [x >= width] or [y >= height]), [frame_set_pixel]
    returns the sprite unchanged (no panic) and [frame_get_pixel] returns
    [0]; the [u32] [SHP::set_pixel] likewise leaves the sprite unchanged
    when [x >= width] or [y >= height]. *)
Theorem set_pixel_outside_canvas_noop (s : SHP) (fi : nat) (x y c : Z) :
  outside s x y ->
  frame_set_pixel s fi x y c = Some s /\ frame_get_pixel s fi x y = Some 0 /\
  (width s <= x \/ height s <= y -> set_pixel s fi x y c = Some s).
Proof.
  intros Hout. split; [by apply frame_set_pixel_outside |].
  split; [by apply frame_get_pixel_outside |].
  intros Hxy. unfold set_pixel.
  destruct (length (frames s) <=? fi)%nat; [done |].
  destruct Hxy as [H | H].
  - by replace (width s <=? x) with true by (symmetry; apply Z.leb_le; lia).
  - replace (height s <=? y) with true by (symmetry; apply Z.leb_le; lia).
    by rewrite orb_true_r.
Qed.

(** The spec's instances: [set_pixel(-1, 0, c)] and [set_pixel(width, 0, c)]
    on a 4x3 frame. *)
Lemma set_pixel_outside_canvas_noop_witness :
  frame_set_pixel (new 4 3 1) 0 (-1) 0 7 = Some (new 4 3 1) /\
  frame_set_pixel (new 4 3 1) 0 4 0 7 = Some (new 4 3 1) /\
  frame_get_pixel (new 4 3 1) 0 4 0 = Some 0.
Proof.
  assert (H1 : outside (new 4 3 1) (-1) 0) by (left; simpl; lia).
  assert (H2 : outside (new 4 3 1) 4 0) by (right; right; left; simpl; lia).
  destruct (set_pixel_outside_canvas_noop (new 4 3 1) 0 (-1) 0 7 H1) as [Ha _].
  destruct (set_pixel_outside_canvas_noop (new 4 3 1) 0 4 0 7 H2) as [Hb [Hc _]].
  split; [exact Ha |]. split; [exact Hb | exact Hc].
Defined.

(** ** History anchor (C3) *)

(** C3: when a sprite is loaded and the history belongs to an anchor
    frame different from the active frame index (the current frame
    clamped to the last frame, as [undo]/[redo] compute it), both [undo]
    and [redo] empty both stacks, move the anchor to the active index and
    leave the sprite (every pixel of every frame) unchanged. *)
Theorem undo_redo_anchor_mismatch_clears (ap : App) (s : SHP) (anchor : nat) :
  shp ap = Some s -> undo_frame_anchor ap = Some anchor -> anchor <> active_index ap s ->
  let ap' := set_history ap (Some s) [] [] (Some (active_index ap s)) (dirty ap) in
  undo ap = Some ap' /\ redo ap = Some ap' /\
  undo_stack ap' = [] /\ redo_stack ap' = [] /\
  undo_frame_anchor ap' = Some (active_index ap s) /\ shp ap' = shp ap.
Proof.
  intros Hs Ha Hne ap'.
  assert (Hm : anchor_mismatch (undo_frame_anchor ap) (active_index ap s) = true).
  { rewrite Ha. simpl. apply negb_true_iff, Nat.eqb_neq. done. }
  unfold undo, redo. rewrite Hs, Hm. subst ap'. repeat split.
Qed.

(** The spec's scenario: [record()] while frame 0 is active, switch to
    frame 1, [undo()]: both stacks end empty and frame 1 is untouched. *)
Lemma undo_redo_anchor_mismatch_clears_witness :
  exists ap1 ap3,
    record demo_app = Some ap1 /\ undo_stack ap1 <> [] /\
    undo (switch_frame 1 ap1) = Some ap3 /\
    undo_stack ap3 = [] /\ redo_stack ap3 = [] /\
    (s ← shp ap3; frames s !! 1%nat) = Some {| pixels := [3; 0; 0; 5] |}.
Proof.
  eexists _, _. split; [reflexivity |]. split; [simpl; discriminate |].
  destruct (undo_redo_anchor_mismatch_clears (switch_frame 1 (set_history demo_app (Some demo_sprite)
             [[0; 0; 0; 0]] [] (Some 0%nat) false)) demo_sprite 0 eq_refl eq_refl) as [Hu [_ [Hus [Hrs [_ Hsh]]]]].
  { vm_compute. discriminate. }
  split; [exact Hu |]. split; [exact Hus |]. split; [exact Hrs |].
  rewrite Hsh. reflexivity.
Defined.

(** ** Flood fill (C5, C8) *)

Lemma width_with_frame_pixels (s : SHP) (fi : nat) (px : list Z) :
  width (with_frame_pixels s fi px) = width s.
Proof. reflexivity. Qed.

Lemma height_with_frame_pixels (s : SHP) (fi : nat) (px : list Z) :
  height (with_frame_pixels s fi px) = height s.
Proof. reflexivity. Qed.

Lemma vec_set_Some {A} (l : list A) (i : nat) (x : A) (l' : list A) :
  vec_set l i x = Some l' -> (i < length l)%nat /\ l' = <[i:=x]> l.
Proof. unfold vec_set. case_bool_decide; intros H'; [by inversion H' | done]. Qed.

Lemma vec_set_lookup {A} (l : list A) (i : nat) (x y : A) :
  l !! i = Some y -> vec_set l i x = Some (<[i:=x]> l).
Proof.
  intros H. apply lookup_lt_Some in H. unfold vec_set. by rewrite bool_decide_eq_true_2.
Qed.

(** A successful [frame_set_pixel] either changes nothing or writes its
    colour into the buffer of its frame. *)
Lemma frame_set_pixel_cases (s : SHP) (fi : nat) (x y c : Z) (s' : SHP) :
  frame_set_pixel s fi x y c = Some s' ->
  s' = s \/
  exists fr i, frames s !! fi = Some fr /\ (i < length (pixels fr))%nat /\
               s' = with_frame_pixels s fi (<[i:=c]> (pixels fr)).
Proof.
  unfold frame_set_pixel.
  destruct (length (frames s) <=? fi)%nat; [intros H; inversion H; by left |].
  destruct ((x <? 0) || (y <? 0)); [intros H; inversion H; by left |].
  destruct ((width s <=? x) || (height s <=? y)); [intros H; inversion H; by left |].
  destruct (frames s !! fi) as [fr |] eqn:Hfr; simpl; [| discriminate].
  destruct (vec_set (pixels fr) _ c) as [px |] eqn:Hv; simpl; [| discriminate].
  intros H; inversion H; subst. apply vec_set_Some in Hv as [Hlt ->].
  right. eauto.
Qed.

(** Writing the colour [c] anywhere keeps every pixel that already has
    colour [c]. *)
Lemma frame_get_pixel_keeps_color (s s' : SHP) (fi fi' : nat) (x y a0 b0 c : Z) :
  frame_set_pixel s fi' a0 b0 c = Some s' ->
  frame_get_pixel s fi x y = Some c -> frame_get_pixel s' fi x y = Some c.
Proof.
  intros Hset Hget. apply frame_set_pixel_cases in Hset
    as [-> | (fr' & i' & Hfr' & Hi' & ->)]; [done |].
  pose proof (lookup_lt_Some _ _ _ Hfr') as Hlt.
  revert Hget. unfold frame_get_pixel.
  rewrite width_with_frame_pixels, height_with_frame_pixels, length_frames_with_frame_pixels.
  destruct ((x <? 0) || (y <? 0)); [done |].
  destruct ((length (frames s) <=? fi)%nat || (width s <=? x) || (height s <=? y)); [done |].
  rewrite frames_with_frame_pixels.
  destruct (decide (fi = fi')) as [-> | Hne]; [| done].
  rewrite bool_decide_eq_true_2 by done. rewrite Hfr'. simpl.
  set (i := Z.to_nat (u32_wrap (y * width s + x))).
  destruct (decide (i = i')) as [-> | Hne'].
  - intros _. by rewrite list_lookup_insert_eq.
  - by rewrite list_lookup_insert_ne.
Qed.

Lemma flood_loop_keeps_color (fuel : nat) (s s1 : SHP) (fi : nat) (w h t c x y : Z)
    (st : list (Z * Z)) :
  flood_loop fuel s fi w h t c st = Done s1 ->
  frame_get_pixel s fi x y = Some c -> frame_get_pixel s1 fi x y = Some c.
Proof.
  revert s st. induction fuel as [| fuel IH]; intros s st; simpl; [discriminate |].
  destruct st as [| [px py] rest]; [intros H; by inversion H |].
  destruct ((px <? 0) || (py <? 0) || (w <=? px) || (h <=? py)); [apply IH |].
  destruct (frame_get_pixel s fi px py) as [v |]; [| discriminate].
  destruct (negb (v =? t)); [apply IH |].
  destruct (frame_set_pixel s fi px py c) as [s' |] eqn:Hset; [| discriminate].
  intros Hloop Hget. eapply IH; [exact Hloop |].
  eapply frame_get_pixel_keeps_color; eauto.
Qed.

Lemma i32_of_u32_le (z : Z) : 0 <= z < 2 ^ 32 -> i32_of_u32 z <= z.
Proof.
  intros Hz. unfold i32_of_u32. rewrite Z.mod_small by lia.
  destruct (z <? 2 ^ 31); lia.
Qed.

(** After a fill that finished, either nothing changed or the seed has
    the new colour. *)
Lemma flood_fill_seed_painted (s s1 : SHP) (fi : nat) (x y c : Z) :
  u32_fields s -> flood_fill_on_frame s fi x y c = Done s1 ->
  s1 = s \/ frame_get_pixel s1 fi x y = Some c.
Proof.
  intros [Hw Hh]. unfold flood_fill_on_frame.
  destruct (length (frames s) <=? fi)%nat eqn:Hfi; [intros H; inversion H; by left |].
  apply Nat.leb_gt in Hfi.
  destruct (frame_get_pixel s fi x y) as [t |] eqn:Hget; [| discriminate].
  destruct (t =? c) eqn:Htc; [intros H; inversion H; by left |].
  assert (Hfuel : exists f, flood_fuel s fi = S f /\ (1 <= f)%nat).
  { unfold flood_fuel. destruct (frames s !! fi).
    - exists (S (4 * length (pixels f)))%nat. split; [reflexivity | lia].
    - exists 1%nat. split; [reflexivity | lia]. }
  destruct Hfuel as [f [Hf Hf1]]. rewrite Hf. simpl.
  destruct ((x <? 0) || (y <? 0) || (i32_of_u32 (width s) <=? x) || (i32_of_u32 (height s) <=? y))
    eqn:Hb.
  - destruct f; [lia |]. simpl. intros H; inversion H; by left.
  - rewrite Hget, Z.eqb_refl. simpl.
    repeat rewrite orb_false_iff in Hb.
    destruct Hb as [[[Hx0 Hy0] Hxw] Hyh].
    apply Z.ltb_ge in Hx0, Hy0. apply Z.leb_gt in Hxw, Hyh.
    pose proof (i32_of_u32_le _ Hw). pose proof (i32_of_u32_le _ Hh).
    destruct (lookup_lt_is_Some_2 (frames s) fi Hfi) as [fr Hfr].
    rewrite (frame_set_pixel_inside s fi x y c fr) by (done || lia).
    rewrite (frame_get_pixel_inside s fi x y fr) in Hget by (done || lia).
    rewrite (vec_set_lookup _ _ _ _ Hget). simpl.
    intros Hloop. right. eapply flood_loop_keeps_color; [exact Hloop |].
    rewrite (frame_get_pixel_inside _ fi x y
               {| pixels := <[Z.to_nat (u32_wrap (y * width s + x)):=c]> (pixels fr) |}).
    + simpl. apply list_lookup_insert_eq. eapply lookup_lt_Some; eauto.
    + rewrite frames_with_frame_pixels, decide_True by done.
      by rewrite bool_decide_eq_true_2.
    + simpl. lia.
    + simpl. lia.
Qed.

(** C5: [flood_fill_on_frame] takes the colour at the seed as its
    target and does nothing when that target already equals the new
    colour [c]; hence it is idempotent: whenever a fill of seed [(x, y)]
    with colour [c] finishes with sprite [s1], filling [s1] at the same
    seed with the same colour finishes at once with [s1] unchanged (the
    seed's colour is now the target, equal to [c]). *)
Theorem flood_fill_idempotent (s s1 : SHP) (fi : nat) (x y c : Z) :
  u32_fields s ->
  (frame_get_pixel s fi x y = Some c -> flood_fill_on_frame s fi x y c = Done s) /\
  (flood_fill_on_frame s fi x y c = Done s1 -> flood_fill_on_frame s1 fi x y c = Done s1).
Proof.
  intros Hu. split.
  - intros Hget. unfold flood_fill_on_frame.
    destruct (length (frames s) <=? fi)%nat; [reflexivity |].
    by rewrite Hget, Z.eqb_refl.
  - intros Hdone.
    destruct (flood_fill_seed_painted s s1 fi x y c Hu Hdone) as [-> | Hget]; [exact Hdone |].
    unfold flood_fill_on_frame.
    destruct (length (frames s1) <=? fi)%nat; [reflexivity |].
    by rewrite Hget, Z.eqb_refl.
Qed.

Lemma flood_fill_idempotent_witness :
  u32_fields demo_sprite /\
  flood_fill_on_frame demo_sprite 1 1 0 0 = Done demo_sprite /\
  flood_fill_on_frame demo_sprite 0 0 0 4 = Done (mkSHP 2 2 [mkFrame [4; 4; 4; 4]; mkFrame [3; 0; 0; 5]]) /\
  mkSHP 2 2 [mkFrame [4; 4; 4; 4]; mkFrame [3; 0; 0; 5]] <> demo_sprite /\
  flood_fill_on_frame (mkSHP 2 2 [mkFrame [4; 4; 4; 4]; mkFrame [3; 0; 0; 5]]) 0 0 0 4 =
    Done (mkSHP 2 2 [mkFrame [4; 4; 4; 4]; mkFrame [3; 0; 0; 5]]).
Proof.
  assert (Hu : u32_fields demo_sprite) by (unfold u32_fields; simpl; lia).
  assert (Hfill : flood_fill_on_frame demo_sprite 0 0 0 4 =
                  Done (mkSHP 2 2 [mkFrame [4; 4; 4; 4]; mkFrame [3; 0; 0; 5]]))
    by (vm_compute; reflexivity).
  split; [exact Hu |]. split.
  - apply (proj1 (flood_fill_idempotent demo_sprite demo_sprite 1 1 0 0 Hu)).
    vm_compute. reflexivity.
  - split; [exact Hfill |]. split; [unfold demo_sprite; discriminate |].
    exact (proj2 (flood_fill_idempotent demo_sprite _ 0 0 0 4 Hu) Hfill).
Defined.

(** Number of pixels of a given colour; each flood-fill step that paints
    lowers it for the target colour. *)
Fixpoint count_val (t : Z) (l : list Z) : nat :=
  match l with
  | [] => 0
  | v :: rest => (if v =? t then 1 else 0) + count_val t rest
  end.

Lemma count_val_le (t : Z) (l : list Z) : (count_val t l <= length l)%nat.
Proof. induction l as [| v l IH]; simpl; [lia |]. destruct (v =? t); lia. Qed.

Lemma count_val_insert (t c : Z) (l : list Z) (i : nat) :
  l !! i = Some t -> t <> c -> S (count_val t (<[i:=c]> l)) = count_val t l.
Proof.
  revert i. induction l as [| v l IH]; intros i Hi Hne; [done |].
  destruct i as [| i]; simpl in *.
  - inversion Hi; subst. rewrite Z.eqb_refl.
    replace (c =? t) with false by (symmetry; apply Z.eqb_neq; congruence). lia.
  - rewrite <- (IH i Hi Hne). lia.
Qed.

(** What the fill loop needs of the sprite: [u32] sizes with a [u32]
    product, and frame [fi] a full buffer. *)
Definition fill_inv (s : SHP) (fi : nat) : Prop :=
  u32_fields s /\ width s * height s < 2 ^ 32 /\
  exists fr, frames s !! fi = Some fr /\ length (pixels fr) = Z.to_nat (width s * height s).

Definition fcount (t : Z) (s : SHP) (fi : nat) : nat :=
  match frames s !! fi with Some fr => count_val t (pixels fr) | None => 0 end.

Lemma inside_index (w h x y : Z) :
  0 <= x < w -> 0 <= y < h -> w * h < 2 ^ 32 ->
  u32_wrap (y * w + x) = y * w + x /\ y * w + x < w * h.
Proof.
  intros Hx Hy Hwh. assert (y * w + x < w * h) by nia.
  unfold u32_wrap. rewrite Z.mod_small by nia. split; [done | lia].
Qed.

Lemma flood_loop_finishes (fuel : nat) (s : SHP) (fi : nat) (w h t c : Z)
    (st : list (Z * Z)) :
  fill_inv s fi -> w = i32_of_u32 (width s) -> h = i32_of_u32 (height s) -> t <> c ->
  (length st + 4 * fcount t s fi < fuel)%nat ->
  exists s1, flood_loop fuel s fi w h t c st = Done s1.
Proof.
  revert s st. induction fuel as [| fuel IH]; intros s st Hinv Hw Hh Htc Hlt; [lia |].
  simpl. destruct st as [| [px py] rest]; [eauto |].
  simpl in Hlt.
  destruct ((px <? 0) || (py <? 0) || (w <=? px) || (h <=? py)) eqn:Hb;
    [apply IH; auto; lia |].
  destruct Hinv as [[Hw32 Hh32] [Hwh (fr & Hfr & Hlen)]].
  repeat rewrite orb_false_iff in Hb.
  destruct Hb as [[[Hx0 Hy0] Hxw] Hyh].
  apply Z.ltb_ge in Hx0, Hy0. apply Z.leb_gt in Hxw, Hyh.
  pose proof (i32_of_u32_le _ Hw32). pose proof (i32_of_u32_le _ Hh32).
  destruct (inside_index (width s) (height s) px py) as [Hi Hilt]; [lia | lia | lia |].
  rewrite (frame_get_pixel_inside s fi px py fr) by (done || lia).
  rewrite Hi.
  destruct (lookup_lt_is_Some_2 (pixels fr) (Z.to_nat (py * width s + px))) as [v Hv]; [lia |].
  rewrite Hv.
  destruct (negb (v =? t)) eqn:Hvt; 
    [apply IH; [split; [done | split; eauto] | done | done | done | lia] |].
  apply negb_false_iff, Z.eqb_eq in Hvt. subst v.
  rewrite (frame_set_pixel_inside s fi px py c fr) by (done || lia).
  rewrite Hi, (vec_set_lookup _ _ _ _ Hv). simpl.
  assert (Hlen' : (fi < length (frames s))%nat) by (eapply lookup_lt_Some; eauto).
  apply IH; [| done | done | done |].
  - split; [done |]. split; [done |].
    eexists. rewrite frames_with_frame_pixels, decide_True by done.
    rewrite bool_decide_eq_true_2 by done. split; [reflexivity |].
    simpl. by rewrite length_insert.
  - unfold fcount in *. rewrite frames_with_frame_pixels, decide_True by done.
    rewrite bool_decide_eq_true_2 by done. rewrite Hfr in Hlt. simpl.
    pose proof (count_val_insert t c (pixels fr) _ Hv Htc). simpl in Hlt. lia.
Qed.

(** C8: on every well-formed sprite, [flood_fill_on_frame] terminates
    normally (no panic) for every frame index, seed and colour: the fuel
    bound [2 + 4 * (pixels in the frame)] of the embedding is never
    exhausted, since each painted pixel leaves the target colour for good
    and pushes four neighbours. *)
Theorem flood_fill_terminates (s : SHP) (fi : nat) (x y c : Z) :
  wf s -> exists s1, flood_fill_on_frame s fi x y c = Done s1.
Proof.
  intros (Hu & Hwh & Hfr).
  unfold flood_fill_on_frame.
  destruct (length (frames s) <=? fi)%nat eqn:Hfi; [eauto |].
  apply Nat.leb_gt in Hfi.
  destruct (lookup_lt_is_Some_2 (frames s) fi Hfi) as [fr Hfr'].
  destruct (Forall_lookup_1 _ _ _ _ Hfr Hfr') as [Hlen _].
  assert (Hget : exists t, frame_get_pixel s fi x y = Some t).
  { destruct (decide (outside s x y)) as [Hout | Hin].
    - exists 0. by apply frame_get_pixel_outside.
    - unfold outside in Hin.
      destruct (inside_index (width s) (height s) x y) as [Hi Hilt]; [lia | lia | lia |].
      rewrite (frame_get_pixel_inside s fi x y fr) by (done || lia).
      rewrite Hi. apply lookup_lt_is_Some_2. rewrite Hlen. apply Z2Nat.inj_lt; nia. }
  destruct Hget as [t ->].
  destruct (t =? c) eqn:Htc; [eauto |].
  apply Z.eqb_neq in Htc.
  apply flood_loop_finishes; [| done | done | done |].
  - split; [done |]. split; [done |]. eauto.
  - unfold flood_fuel, fcount. rewrite Hfr'. simpl.
    pose proof (count_val_le t (pixels fr)). lia.
Qed.

Lemma flood_fill_terminates_witness :
  exists s1, flood_fill_on_frame (new 3 2 1) 0 1 1 4 = Done s1.
Proof.
  apply flood_fill_terminates.
  split; [unfold u32_fields; simpl; lia |]. split; [simpl; lia |].
  simpl. repeat constructor; unfold u8_ok; lia.
Defined.

(** ** Palette quantisation (C6) *)

Lemma dist_rgb2_nonneg (x y : Color32) : 0 <= dist_rgb2 x y.
Proof. unfold dist_rgb2, u32_wrap. apply Z.mod_pos_bound. lia. Qed.

(** On [u8] channels the [u32] cast is exact: [dist_rgb2] is the squared
    Euclidean RGB distance, well below [u32::MAX]. *)
Lemma dist_rgb2_sq_dist (x y : Color32) :
  color_ok x -> color_ok y -> dist_rgb2 x y = sq_dist x y /\ sq_dist x y < 2 ^ 32 - 1.
Proof.
  intros (Hr & Hg & Hb & _) (Hr' & Hg' & Hb' & _). unfold u8_ok in *.
  unfold dist_rgb2, sq_dist, u32_wrap.
  assert (Hsq : forall d, -255 <= d <= 255 -> 0 <= d * d <= 255 * 255) by (intros; nia).
  pose proof (Hsq (r x - r y) ltac:(lia)). pose proof (Hsq (g x - g y) ltac:(lia)).
  pose proof (Hsq (b x - b y) ltac:(lia)).
  rewrite Z.mod_small by lia. split; [ring | lia].
Qed.

(** The scan either keeps its current best (every remaining distance is
    at least [best_d]) or returns the first position of a strict
    improvement that is minimal over the rest. *)
Lemma best_loop_spec (color : Color32) (l : list Color32) (i best best_d : Z) :
  let k := best_loop color l i best best_d in
  (k = best /\ forall j cj, l !! j = Some cj -> best_d <= dist_rgb2 color cj) \/
  (exists j cj, k = i + Z.of_nat j /\ l !! j = Some cj /\ dist_rgb2 color cj < best_d /\
     (forall j' cj', l !! j' = Some cj' -> dist_rgb2 color cj <= dist_rgb2 color cj') /\
     (forall j' cj', (j' < j)%nat -> l !! j' = Some cj' -> dist_rgb2 color cj < dist_rgb2 color cj')).
Proof.
  revert i best best_d. induction l as [| c l IH]; intros i best best_d; simpl.
  - left. split; [done |]. intros j cj H. done.
  - destruct (dist_rgb2 color c <? best_d) eqn:Hlt.
    + apply Z.ltb_lt in Hlt.
      destruct (dist_rgb2 color c =? 0) eqn:H0.
      * apply Z.eqb_eq in H0. right. exists 0%nat, c.
        split; [lia |]. split; [done |]. split; [done |]. split.
        -- intros j' cj' _. rewrite H0. apply dist_rgb2_nonneg.
        -- intros j' cj' Hj'. lia.
      * destruct (IH (i + 1) i (dist_rgb2 color c)) as [[Hk Hall] | (j & cj & Hk & Hj & Hd & Hmin & Hfirst)].
        -- right. exists 0%nat, c. split; [lia |]. split; [done |]. split; [done |]. split.
           ++ intros [| j'] cj' Hj'; simpl in Hj'; [inversion Hj'; lia | eauto].
           ++ intros j' cj' Hj'. lia.
        -- right. exists (S j), cj. split; [lia |]. split; [done |]. split; [lia |]. split.
           ++ intros [| j'] cj' Hj'; simpl in Hj'; [inversion Hj'; subst; lia | eauto].
           ++ intros [| j'] cj' Hj' Hl; simpl in Hl; [inversion Hl; subst; lia |].
              apply (Hfirst j'); [lia | done].
    + apply Z.ltb_ge in Hlt.
      destruct (IH (i + 1) best best_d) as [[Hk Hall] | (j & cj & Hk & Hj & Hd & Hmin & Hfirst)].
      * left. split; [done |]. intros [| j'] cj' Hj'; simpl in Hj'; [inversion Hj'; subst; lia | eauto].
      * right. exists (S j), cj. split; [lia |]. split; [done |]. split; [lia |]. split.
        -- intros [| j'] cj' Hj'; simpl in Hj'; [inversion Hj'; subst; lia | eauto].
        -- intros [| j'] cj' Hj' Hl; simpl in Hl; [inversion Hl; subst; lia |].
           apply (Hfirst j'); [lia | done].
Qed.

(** C6: for a 256-entry palette of [u8] colours and a [u8] colour,
    [best_index_rgb] returns an index [k] in [0..255] whose squared
    Euclidean RGB distance (alpha ignored) is minimal over the palette and
    strictly smaller than that of every lower index, so ties go to the
    lowest index and an exact match is the first zero-distance entry
    ([best_index_rgb] is a function, so identical inputs give identical
    results); on the grayscale palette [(i, i, i)] the colour
    [(128, 128, 128)] gives [128]. *)
Theorem best_index_rgb_first_minimum (color : Color32) (pal : Palette) :
  palette_ok pal -> color_ok color ->
  (0 <= best_index_rgb color (colors pal) < 256 /\
   exists ck, colors pal !! Z.to_nat (best_index_rgb color (colors pal)) = Some ck /\
     (forall j cj, colors pal !! j = Some cj -> sq_dist color ck <= sq_dist color cj) /\
     (forall j cj, (j < Z.to_nat (best_index_rgb color (colors pal)))%nat ->
        colors pal !! j = Some cj -> sq_dist color ck < sq_dist color cj)) /\
  best_index_rgb (from_rgb 128 128 128) (colors default_grayscale) = 128.
Proof.
  intros [Hlen Hok] Hc. split; [| reflexivity].
  assert (Hd : forall j cj, colors pal !! j = Some cj ->
                 dist_rgb2 color cj = sq_dist color cj /\ sq_dist color cj < 2 ^ 32 - 1).
  { intros j cj Hj. apply dist_rgb2_sq_dist; [done |]. eapply Forall_lookup_1; eauto. }
  unfold best_index_rgb.
  destruct (best_loop_spec color (colors pal) 0 0 (2 ^ 32 - 1))
    as [[Hk Hall] | (j & cj & Hk & Hj & Hdj & Hmin & Hfirst)].
  - exfalso. destruct (lookup_lt_is_Some_2 (colors pal) 0) as [c0 H0]; [lia |].
    specialize (Hall _ _ H0). destruct (Hd _ _ H0). lia.
  - rewrite Hk. pose proof (lookup_lt_Some _ _ _ Hj).
    replace (Z.to_nat (0 + Z.of_nat j)) with j by lia.
    split; [lia |]. exists cj. split; [done |].
    destruct (Hd _ _ Hj) as [Ej _]. split.
    + intros j' cj' Hj'. destruct (Hd _ _ Hj') as [Ej' _].
      rewrite <- Ej, <- Ej'. eauto.
    + intros j' cj' Hlt Hj'. destruct (Hd _ _ Hj') as [Ej' _].
      rewrite <- Ej, <- Ej'. eauto.
Qed.

Lemma best_index_rgb_first_minimum_witness :
  best_index_rgb (from_rgb 128 128 128) (colors default_grayscale) = 128 /\
  0 <= best_index_rgb (from_rgb 130 120 7) (colors default_grayscale) < 256.
Proof.
  assert (Hp : palette_ok default_grayscale).
  { split; [reflexivity |]. unfold default_grayscale. simpl.
    repeat constructor; unfold u8_ok; simpl; lia. }
  split.
  - apply (best_index_rgb_first_minimum (from_rgb 128 128 128) default_grayscale Hp).
    repeat split; unfold u8_ok; simpl; lia.
  - apply (best_index_rgb_first_minimum (from_rgb 130 120 7) default_grayscale Hp).
    repeat split; unfold u8_ok; simpl; lia.
Defined.

(** ** Rendering (C7, C10) *)

Lemma render_pixels_spec {B} (sc : B -> Z -> Z) (fr : list Z) (pal : Palette) (br : B)
    (m k : nat) :
  (k + m <= length fr)%nat -> Forall u8_ok fr -> length (colors pal) = 256%nat ->
  exists rgba, render_pixels sc fr pal br (seq k m) = Some rgba /\
    length rgba = (4 * m)%nat /\
    forall j idx, (j < m)%nat -> fr !! (k + j)%nat = Some idx ->
      rgba !! (4 * j + 3)%nat = Some (if idx =? 0 then 0 else 255).
Proof.
  intros Hkm Hu Hpal. revert k Hkm. induction m as [| m IH]; intros k Hkm.
  - exists []. split; [done |]. split; [done |]. intros j idx Hj. lia.
  - destruct (lookup_lt_is_Some_2 fr k) as [idx Hidx]; [lia |].
    pose proof (Forall_lookup_1 _ _ _ _ Hu Hidx) as Hidx8. unfold u8_ok in Hidx8.
    destruct (lookup_lt_is_Some_2 (colors pal) (Z.to_nat idx)) as [c Hc]; [lia |].
    destruct (IH (S k)) as (tl & Htl & Hlen & Ha); [lia |].
    simpl. rewrite Hidx. simpl. rewrite Hc. simpl. rewrite Htl. simpl.
    eexists. split; [reflexivity |]. split; [simpl; lia |].
    intros [| j] idx' Hj Hl.
    + rewrite Nat.add_0_r in Hl. rewrite Hidx in Hl. inversion Hl; subst. reflexivity.
    + match goal with |- _ !! ?n = _ =>
        replace n with (S (S (S (S (4 * j + 3)))))%nat by lia end.
      assert (Hl' : fr !! (S k + j)%nat = Some idx')
        by (by replace (S k + j)%nat with (k + S j)%nat by lia).
      exact (Ha j idx' ltac:(lia) Hl').
Qed.

Lemma render_in_range {B} (sc : B -> Z -> Z) (s : SHP) (frame : nat) (pal : Palette) (br : B)
    (fr : Frame) :
  wf s -> palette_ok pal -> rendered_frame s frame = Some fr ->
  0 < width s * height s <= 64000000 ->
  exists rgba, egui_texture_with_brightness sc s frame pal br = Some (width s, height s, rgba) /\
    length rgba = (4 * Z.to_nat (width s * height s))%nat /\
    forall i idx, pixels fr !! i = Some idx ->
      rgba !! (4 * i + 3)%nat = Some (if idx =? 0 then 0 else 255).
Proof.
  intros (Hu & Hwh & Hfr) [Hpal _] Hsel Hrange.
  assert (Hfwf : frame_wf (width s) (height s) fr).
  { unfold rendered_frame in Hsel.
    destruct (frame <? length (frames s))%nat; eapply Forall_lookup_1; eauto. }
  destruct Hfwf as [Hlen Hbytes].
  destruct (render_pixels_spec sc (pixels fr) pal br (Z.to_nat (width s * height s)) 0)
    as (rgba & Hr & Hrl & Ha); [lia | done | done |].
  exists rgba. unfold egui_texture_with_brightness.
  replace ((width s * height s =? 0) || (64000000 <? width s * height s)) with false
    by (symmetry; apply orb_false_iff; split; [apply Z.eqb_neq | apply Z.ltb_ge]; lia).
  unfold rendered_frame in Hsel. rewrite Hsel. simpl.
  unfold u32_wrap. rewrite Z.mod_small by lia. rewrite Hr. simpl.
  rewrite bool_decide_eq_true_2 by lia.
  split; [done |]. split; [done |].
  intros i idx Hi. apply Ha; [| done].
  apply lookup_lt_Some in Hi. lia.
Qed.

(** C7 (as corrected): for every well-formed sprite with between 1 and
    64,000,000 pixels, every 256-colour palette, every frame index and
    every brightness (the colour scaling is left abstract), the RGBA
    buffer built for presentation has [4 * width * height] bytes and the
    alpha byte of pixel [i] is [0] exactly when the drawn frame has
    palette index [0] there, and [255] otherwise. *)
Theorem render_alpha_rule_in_range {B} (sc : B -> Z -> Z) (s : SHP) (frame : nat)
    (pal : Palette) (br : B) (fr : Frame) :
  wf s -> palette_ok pal -> rendered_frame s frame = Some fr ->
  0 < width s * height s <= 64000000 ->
  exists rgba, egui_texture_with_brightness sc s frame pal br = Some (width s, height s, rgba) /\
    length rgba = (4 * Z.to_nat (width s * height s))%nat /\
    forall i idx, pixels fr !! i = Some idx ->
      rgba !! (4 * i + 3)%nat = Some (if idx =? 0 then 0 else 255).
Proof. apply render_in_range. Qed.

(** A blank 8001x8000 sprite (64,008,000 pixels, above the ceiling):
    its pixel 0 has index 0, yet the buffer produced is the 1x1
    placeholder whose only alpha byte is 255. *)
Lemma render_alpha_rule_counterexample :
  (fr ← frames (new 8001 8000 1) !! 0%nat; pixels fr !! 0%nat) = Some 0 /\
  exists rgba,
    egui_texture_with_brightness (fun (_ : Z) c => c) (new 8001 8000 1) 0 default_grayscale 1
      = Some (1, 1, rgba) /\ rgba !! 3%nat = Some 255.
Proof.
  split.
  - unfold new. cbn [frames]. rewrite lookup_replicate_2 by lia.
    cbn [mbind option_bind pixels]. rewrite lookup_replicate_2; [reflexivity |].
    unfold u32_wrap. rewrite Z.mod_small by lia. lia.
  - exists [0; 0; 0; 255]. split; [| reflexivity].
    unfold egui_texture_with_brightness.
    change (width (new 8001 8000 1)) with 8001.
    change (height (new 8001 8000 1)) with 8000.
    reflexivity.
Qed.

(** C10: for every well-formed sprite with at least one frame and every
    256-colour palette, rendering with a frame index at or beyond the
    frame count gives exactly the image of frame 0, and that rendering
    does not fail. *)
Theorem render_out_of_range_frame_falls_back {B} (sc : B -> Z -> Z) (s : SHP) (frame : nat)
    (pal : Palette) (br : B) :
  wf s -> palette_ok pal -> frames s <> [] -> (length (frames s) <= frame)%nat ->
  egui_texture_with_brightness sc s frame pal br = egui_texture_with_brightness sc s 0 pal br /\
  exists img, egui_texture_with_brightness sc s 0 pal br = Some img.
Proof.
  intros Hwf Hpal Hne Hge.
  assert (Hlen0 : (0 < length (frames s))%nat) by (destruct (frames s); [done | simpl; lia]).
  split.
  - unfold egui_texture_with_brightness.
    replace (frame <? length (frames s))%nat with false by (symmetry; apply Nat.ltb_ge; lia).
    replace (0 <? length (frames s))%nat with true by (symmetry; apply Nat.ltb_lt; lia).
    reflexivity.
  - destruct (lookup_lt_is_Some_2 (frames s) 0 Hlen0) as [fr0 Hfr0].
    destruct (decide (0 < width s * height s <= 64000000)) as [Hin | Hout].
    + destruct (render_in_range sc s 0 pal br fr0) as (rgba & Hr & _); [done | done | | done |].
      * unfold rendered_frame. by replace (0 <? length (frames s))%nat with true
          by (symmetry; apply Nat.ltb_lt; lia).
      * eauto.
    + destruct Hwf as ((Hw & Hh) & _). unfold egui_texture_with_brightness.
      replace ((width s * height s =? 0) || (64000000 <? width s * height s)) with true.
      * eauto.
      * symmetry. apply orb_true_iff.
        destruct (decide (width s * height s = 0)); [left; by apply Z.eqb_eq |].
        right. apply Z.ltb_lt. nia.
Qed.

Lemma render_out_of_range_frame_falls_back_witness :
  egui_texture_with_brightness (fun (_ : Z) c => c) demo_sprite 5 default_grayscale 1 =
  egui_texture_with_brightness (fun (_ : Z) c => c) demo_sprite 0 default_grayscale 1.
Proof.
  apply (render_out_of_range_frame_falls_back (fun (_ : Z) c => c) demo_sprite 5 default_grayscale 1).
  - split; [unfold u32_fields; simpl; lia |]. split; [simpl; lia |].
    simpl. repeat constructor; unfold u8_ok; lia.
  - split; [reflexivity |]. unfold default_grayscale. simpl.
    repeat constructor; unfold u8_ok; simpl; lia.
  - discriminate.
  - simpl. lia.
Defined.

Lemma render_alpha_rule_in_range_witness :
  exists rgba, egui_texture_with_brightness (fun (_ : Z) c => c) demo_sprite 1 default_grayscale 1
    = Some (2, 2, rgba) /\ rgba !! 3%nat = Some 255 /\ rgba !! 7%nat = Some 0.
Proof.
  destruct (render_alpha_rule_in_range (fun (_ : Z) c => c) demo_sprite 1 default_grayscale 1
              {| pixels := [3; 0; 0; 5] |}) as (rgba & Hr & _ & Ha).
  - split; [unfold u32_fields; simpl; lia |]. split; [simpl; lia |].
    simpl. repeat constructor; unfold u8_ok; lia.
  - split; [reflexivity |]. unfold default_grayscale. simpl.
    repeat constructor; unfold u8_ok; simpl; lia.
  - reflexivity.
  - simpl. lia.
  - exists rgba. split; [exact Hr |].
    split; [exact (Ha 0%nat 3 eq_refl) | exact (Ha 1%nat 0 eq_refl)].
Defined.

(** ** Header validation (C9) *)

(** C9 (as corrected): an input of fewer than 8 bytes is refused as a
    short header, before any field is read; otherwise decoding fails
    with [NotAnShp] when the 16-bit zero marker is nonzero, and else
    with [InvalidSize] when the width, height or frame count field is 0;
    a successful decode implies that all these checks passed. *)
Theorem load_header_checks (bytes : list Z) :
  ((length bytes < 8)%nat -> load bytes = Err HeaderTooShort) /\
  ((8 <= length bytes)%nat -> header_field bytes 0 <> 0 -> load bytes = Err NotAnShp) /\
  ((8 <= length bytes)%nat -> header_field bytes 0 = 0 ->
     header_field bytes 1 = 0 \/ header_field bytes 2 = 0 \/ header_field bytes 3 = 0 ->
     load bytes = Err InvalidSize) /\
  (forall s, load bytes = Ok s ->
     (8 <= length bytes)%nat /\ header_field bytes 0 = 0 /\ header_field bytes 1 <> 0 /\
     header_field bytes 2 <> 0 /\ header_field bytes 3 <> 0).
Proof.
  destruct (decide (length bytes < 8)%nat) as [Hs | Hl].
  - assert (E : load bytes = Err HeaderTooShort)
      by (unfold load; by rewrite (proj2 (Nat.ltb_lt _ _) Hs)).
    rewrite E. split; [done |]. split; [lia |]. split; [lia |].
    intros s' Hs'. discriminate.
  - destruct bytes as [| b0 [| b1 [| b2 [| b3 [| b4 [| b5 [| b6 [| b7 rest]]]]]]]];
      try (simpl in Hl; lia).
    unfold load, load_body, rbind, read_u16, read_exact, rret, rfail, header_field. simpl.
    repeat match goal with |- context [(?z =? 0)] =>
      let E := fresh "E" in destruct (z =? 0) eqn:E; simpl end;
    rewrite ?Z.eqb_eq, ?Z.eqb_neq in *;
    repeat split; intros; try lia; try discriminate.
Qed.

Lemma load_header_checks_witness :
  load [0; 0; 2; 0; 0; 0; 1; 0] = Err InvalidSize /\ load [7; 0; 2; 0; 2; 0; 1; 0] = Err NotAnShp.
Proof.
  destruct (load_header_checks [0; 0; 2; 0; 0; 0; 1; 0]) as (_ & _ & H1 & _).
  destruct (load_header_checks [7; 0; 2; 0; 2; 0; 1; 0]) as (_ & H2 & _ & _).
  split.
  - apply H1; [simpl; lia | reflexivity | right; left; reflexivity].
  - apply H2; [simpl; lia | discriminate].
Defined.

(** A 4-byte input whose zero marker is 1 is refused as a short header,
    not with [NotAnShp]; a 4-byte all-zero input (width 0) is likewise
    refused as a short header, not with [InvalidSize]. *)
Lemma load_header_checks_counterexample :
  load [1; 0; 0; 0] = Err HeaderTooShort /\ load [1; 0; 0; 0] <> Err NotAnShp /\
  load [0; 0; 0; 0] = Err HeaderTooShort /\ load [0; 0; 0; 0] <> Err InvalidSize.
Proof. vm_compute. repeat split; discriminate. Qed.

(** ** Codec facts *)

Lemma le16_value (v : Z) : 0 <= v < 2 ^ 16 -> le_value (le16 v) = v.
Proof.
  intros Hv. unfold le16, le_value. simpl.
  rewrite (Z.mod_small (v / 256) 256)
    by (split; [apply Z.div_pos | apply Z.div_lt_upper_bound]; lia).
  pose proof (Z.div_mod v 256). lia.
Qed.

Lemma read_u16_le16 (v : Z) (rest : list Z) :
  0 <= v < 2 ^ 16 -> read_u16 (le16 v ++ rest) = Ok (v, rest).
Proof.
  intros Hv. pose proof (le16_value v Hv) as E.
  unfold read_u16, rbind, read_exact, rret, le16 in *. simpl in E |- *.
  by rewrite E, drop_0.
Qed.

Lemma rle0_row_cons (w h y rem x : Z) (px : list Z) (v : Z) (src : list Z) :
  rem <> 0 ->
  rle0_row w h y rem x px (v :: src) =
    if v =? 0 then
      match src with
      | [] => Err UnexpectedEof
      | c :: src2 => rle0_row w h y (usize_wrap (rem - 1 - 1)) (usize_saturating_add x c) px src2
      end
    else
      match put_pixel w h x y v px with
      | Ok px' => rle0_row w h y (rem - 1) (x + 1) px' src
      | Err e => Err e
      end.
Proof. intros Hrem. simpl. by rewrite (proj2 (Z.eqb_neq _ _) Hrem). Qed.

(** A row payload made of well-formed literals and runs is decoded as
    the spec reads it, and exactly its bytes are consumed. *)
Lemma rle0_row_tokens (w h y : Z) (toks : list rle0_token) :
  forall x px rest,
  Forall token_ok toks -> 0 <= x ->
  x + 256 * Z.of_nat (length (flat_map token_bytes toks)) < 2 ^ 64 ->
  rle0_row w h y (Z.of_nat (length (flat_map token_bytes toks))) x px
      (flat_map token_bytes toks ++ rest) =
    match apply_tokens w h y x toks px with Ok px' => Ok (px', rest) | Err e => Err e end.
Proof.
  induction toks as [| t toks IH]; intros x px rest Hok Hx Hb.
  - by destruct rest.
  - inversion Hok as [| ? ? Ht Hok']; subst.
    destruct t as [v | n]; simpl in Ht; cbn [flat_map token_bytes app length] in Hb |- *.
    + rewrite rle0_row_cons by lia.
      rewrite (proj2 (Z.eqb_neq v 0)) by lia. cbn [apply_tokens].
      destruct (put_pixel w h x y v px) as [px' | e]; [| reflexivity].
      replace (Z.of_nat (S (length (flat_map token_bytes toks))) - 1)
        with (Z.of_nat (length (flat_map token_bytes toks))) by lia.
      apply IH; [done | lia | lia].
    + rewrite rle0_row_cons by lia. cbn [Z.eqb apply_tokens].
      unfold usize_wrap, usize_saturating_add.
      rewrite Z.mod_small by lia. rewrite Z.min_l by lia.
      replace (Z.of_nat (S (S (length (flat_map token_bytes toks)))) - 1 - 1)
        with (Z.of_nat (length (flat_map token_bytes toks))) by lia.
      apply IH; [done | lia | lia].
Qed.

(** C2 (as corrected): in an RLE0 frame, a row whose 16-bit length
    field counts itself plus a payload made of literal bytes [v]
    ([0 < v < 256]) and runs [0, n] decodes as the spec reads it (a
    literal is written at the cursor, which moves by one; a run moves
    the cursor by [n] without writing), and the row consumes exactly
    its declared length, the next row starting right after it; a
    1-row, width-4 frame whose data is [05 00 05 00 03] decodes to
    [[5, 0, 0, 0]]. *)
Theorem rle0_row_decoding (w h : Z) (fh0 : FHeader) (k : nat) (y : Z) (px : list Z)
    (toks : list rle0_token) (rest : list Z) :
  Forall token_ok toks -> 0 <= fx fh0 < 2 ^ 16 ->
  2 + Z.of_nat (length (flat_map token_bytes toks)) < 2 ^ 16 ->
  rle0_rows w h fh0 (S k) y px
      (le16 (2 + Z.of_nat (length (flat_map token_bytes toks)))
       ++ flat_map token_bytes toks ++ rest) =
    match apply_tokens w h y (fx fh0) toks px with
    | Ok px' => rle0_rows w h fh0 k (y + 1) px' rest
    | Err e => Err e
    end /\
  load (rle0_file [5; 0; 5; 0; 3]) =
    Ok {| width := 4; height := 1; frames := [{| pixels := [5; 0; 0; 0] |}] |}.
Proof.
  intros Hok Hx Hlen. split; [| vm_compute; reflexivity].
  cbn [rle0_rows]. unfold rbind at 1.
  rewrite read_u16_le16 by lia. cbv beta iota.
  replace (Z.max (2 + Z.of_nat (length (flat_map token_bytes toks)) - 2) 0)
    with (Z.of_nat (length (flat_map token_bytes toks))) by lia.
  unfold rbind at 1. rewrite rle0_row_tokens by (done || lia).
  by destruct (apply_tokens w h y (fx fh0) toks px).
Qed.

Lemma rle0_row_decoding_witness :
  rle0_rows 4 1 {| fx := 0; fy := 0; fw := 4; fh := 1; flags := 3; data_off := 32 |} 1 0
    [0; 0; 0; 0] [5; 0; 5; 0; 3] = Ok ([5; 0; 0; 0], []).
Proof.
  destruct (rle0_row_decoding 4 1 {| fx := 0; fy := 0; fw := 4; fh := 1; flags := 3; data_off := 32 |}
              0 0 [0; 0; 0; 0] [Lit 5; Skip 3] []) as [H _].
  - repeat constructor; simpl; lia.
  - simpl. lia.
  - simpl. lia.
  - exact H.
Defined.

(** A 1-row, width-4 RLE0 frame whose data is exactly [06 00 05 00 03]
    does not decode: the declared length asks for one more payload byte
    than the data holds.  A row declaring 3 bytes whose only payload
    byte is 0 makes the decoder read its count byte past the declared
    length, and then keep reading until the data runs out. *)
Lemma rle0_row_decoding_counterexample :
  load (rle0_file [6; 0; 5; 0; 3]) = Err UnexpectedEof /\
  rle0_row 4 1 0 1 0 [0; 0; 0; 0] [0; 9; 7; 7] = Err UnexpectedEof.
Proof. split; vm_compute; reflexivity. Qed.

(** ** Sprites built by the editor (C1) *)







(** ** The blocks [save] writes *)

Lemma foldM_copy_cell (w : Z) (src : list Z) (L : list (Z * Z)) :
  forall blk,
  length blk = length src ->
  Forall (fun p => (Z.to_nat (p.1 * w + p.2) < length src)%nat) L ->
  exists blk', foldM_opt (copy_cell w src) blk L = Some blk' /\
    length blk' = length src /\
    forall i, blk' !! i =
      if bool_decide (i ∈ map (fun p => Z.to_nat (p.1 * w + p.2)) L) then src !! i
      else blk !! i.
Proof.
  induction L as [| p L IH]; intros blk Hlen HL.
  - exists blk. split; [done |]. split; [done |]. intros i.
    rewrite bool_decide_eq_false_2; [done | apply not_elem_of_nil].
  - inversion HL as [| ? ? Hp HL']; subst.
    destruct (lookup_lt_is_Some_2 src _ Hp) as [v Hv].
    assert (Hc : copy_cell w src blk p = Some (<[Z.to_nat (p.1 * w + p.2) := v]> blk)).
    { unfold copy_cell. cbv zeta. rewrite Hv. simpl. unfold vec_set.
      rewrite bool_decide_eq_true_2 by lia. done. }
    destruct (IH (<[Z.to_nat (p.1 * w + p.2) := v]> blk)) as (blk' & Hf & Hl & Hi);
      [by rewrite length_insert | done |].
    exists blk'. cbn [foldM_opt]. rewrite Hc. simpl. split; [done |]. split; [done |].
    intros i. rewrite Hi. cbn [map].
    destruct (decide (i ∈ map (fun p => Z.to_nat (p.1 * w + p.2)) L)) as [Hin | Hnin].
    + rewrite !bool_decide_eq_true_2; [done | by apply elem_of_cons; right | done].
    + rewrite (bool_decide_eq_false_2 (i ∈ _ L)) by done.
      destruct (decide (i = Z.to_nat (p.1 * w + p.2))) as [-> | Hne].
      * rewrite bool_decide_eq_true_2 by (apply elem_of_cons; by left).
        rewrite list_lookup_insert_eq by lia. done.
      * rewrite bool_decide_eq_false_2.
        -- by rewrite list_lookup_insert_ne by congruence.
        -- rewrite elem_of_cons. tauto.
Qed.

Lemma in_zrange (n z : Z) : 0 <= z < n -> In z (zrange n).
Proof.
  intros Hz. unfold zrange. apply in_map_iff. exists (Z.to_nat z).
  split; [lia |]. apply in_seq. lia.
Qed.

Lemma in_zrange_inv (n z : Z) : In z (zrange n) -> 0 <= z < n.
Proof.
  unfold zrange. intros (k & <- & Hk)%in_map_iff. apply in_seq in Hk. lia.
Qed.

(** [save] copies every frame of [width * height] bytes unchanged. *)
Lemma copy_block_pixels (w h : Z) (fr : Frame) :
  0 <= w -> 0 <= h -> w * h < 2 ^ 32 -> length (pixels fr) = Z.to_nat (w * h) ->
  copy_block w h fr = Some (pixels fr).
Proof.
  intros Hw Hh Hwh Hlen. unfold copy_block.
  set (L := flat_map (fun y => map (fun x => (y, x)) (zrange w)) (zrange h)).
  assert (HL : Forall (fun p => (Z.to_nat (p.1 * w + p.2) < length (pixels fr))%nat) L).
  { apply List.Forall_forall. intros [y x] (y' & Hy & Hx)%in_flat_map.
    apply in_map_iff in Hx as (x' & Heq & Hx). inversion Heq; subst.
    apply in_zrange_inv in Hy, Hx. simpl. rewrite Hlen. apply Z2Nat.inj_lt; nia. }
  assert (Hz : length (replicate (Z.to_nat (u32_wrap (w * h))) 0) = length (pixels fr)).
  { rewrite length_replicate, Hlen. unfold u32_wrap. rewrite Z.mod_small by lia. done. }
  destruct (foldM_copy_cell w (pixels fr) L _ Hz HL) as (blk' & Hf & Hl & Hi).
  rewrite Hf. f_equal. apply list_eq. intros i. rewrite Hi.
  case_bool_decide as Hin; [done |].
  assert (Hge : (length (pixels fr) <= i)%nat).
  { destruct (decide (length (pixels fr) <= i)%nat) as [| Hlt]; [done |]. exfalso.
    apply Hin. apply list_elem_of_In, in_map_iff.
    assert (Hw0 : 0 < w) by (destruct (decide (w = 0)); [subst; lia | lia]).
    exists (Z.of_nat i / w, Z.of_nat i mod w). split.
    - simpl. pose proof (Z.div_mod (Z.of_nat i) w ltac:(lia)). lia.
    - apply in_flat_map. exists (Z.of_nat i / w). split.
      + apply in_zrange. split; [apply Z.div_pos; lia |].
        apply Z.div_lt_upper_bound; lia.
      + apply in_map_iff. exists (Z.of_nat i mod w). split; [done |].
        apply in_zrange. apply Z.mod_pos_bound. lia. }
  rewrite !lookup_ge_None_2; [done | lia | lia].
Qed.

Lemma mapM_copy_block (w h : Z) (frs : list Frame) :
  0 <= w -> 0 <= h -> w * h < 2 ^ 32 ->
  Forall (fun fr => length (pixels fr) = Z.to_nat (w * h)) frs ->
  mapM_opt (copy_block w h) frs = Some (map pixels frs).
Proof.
  intros Hw Hh Hwh. induction 1 as [| fr frs Hfr _ IH]; [done |].
  simpl. rewrite copy_block_pixels by done. simpl. by rewrite IH.
Qed.

(** ** Reading back what [save] writes *)










(** ** Uncompressed rows *)




(** ** Decoding the frames [save] writes *)


Lemma length_data_offsets (c : Z) (bl : list (list Z)) :
  length (data_offsets c bl) = length bl.
Proof.
  revert c. induction bl as [| blk bl IH]; intros c; [done |]. simpl.
  destruct (forallb _ blk); simpl; by rewrite IH.
Qed.






Lemma length_frame_header_bytes (w h : Z) (offs : list Z) :
  length (flat_map (frame_header_bytes w h) offs) = (24 * length offs)%nat.
Proof.
  induction offs as [| o offs IH]; [done |].
  cbn [flat_map]. rewrite length_app, IH. simpl. lia.
Qed.







(* ------------------------------------------------------------------ *)
(** ** Further properties of the code *)

Lemma drop_nth_cons (l : list Z) (j : nat) :
  (j < length l)%nat -> drop j l = nth j l 0 :: drop (S j) l.
Proof.
  revert j. induction l as [| v l IH]; intros j Hj; [simpl in Hj; lia |].
  destruct j as [| j]; [done |]. simpl. apply IH. simpl in Hj. lia.
Qed.

Lemma from_bytes_channels (bytes : list Z) (k n : nat) :
  (3 * (k + n) <= length bytes)%nat ->
  flat_map (fun c => [r c; g c; b c])
    (map (fun i => from_rgb (nth (i * 3) bytes 0) (nth (i * 3 + 1) bytes 0)
                            (nth (i * 3 + 2) bytes 0)) (seq k n)) =
  take (3 * n) (drop (3 * k) bytes).
Proof.
  revert k. induction n as [| n IH]; intros k Hk; [by rewrite take_0 |].
  cbn [seq map flat_map]. rewrite IH by lia.
  rewrite (drop_nth_cons bytes (3 * k)) by lia.
  rewrite (drop_nth_cons bytes (S (3 * k))) by lia.
  rewrite (drop_nth_cons bytes (S (S (3 * k)))) by lia.
  replace (3 * S n)%nat with (S (S (S (3 * n)))) by lia. cbn [take app].
  replace (S (S (S (3 * k)))) with (3 * S k)%nat by lia.
  replace (S (S (3 * k))) with (k * 3 + 2)%nat by lia.
  replace (S (3 * k)) with (k * 3 + 1)%nat by lia.
  replace (3 * k)%nat with (k * 3)%nat by lia. done.
Qed.

Lemma to_bytes_nth (cs : list Color32) (i : nat) (c : Color32) :
  cs !! i = Some c ->
  nth (i * 3) (flat_map (fun c => [r c; g c; b c]) cs) 0 = r c /\
  nth (i * 3 + 1) (flat_map (fun c => [r c; g c; b c]) cs) 0 = g c /\
  nth (i * 3 + 2) (flat_map (fun c => [r c; g c; b c]) cs) 0 = b c.
Proof.
  revert i. induction cs as [| c' cs IH]; intros i Hi; [done |].
  destruct i as [| i]; simpl in Hi.
  - inversion Hi; subst. done.
  - replace (S i * 3)%nat with (S (S (S (i * 3)))) by lia.
    replace (S (S (S (i * 3))) + 1)%nat with (S (S (S (i * 3 + 1)))) by lia.
    replace (S (S (S (i * 3))) + 2)%nat with (S (S (S (i * 3 + 2)))) by lia.
    cbn [flat_map app nth]. by apply IH.
Qed.

Lemma length_to_bytes (p : Palette) : length (to_bytes p) = (3 * length (colors p))%nat.
Proof.
  unfold to_bytes. induction (colors p) as [| c cs IH]; [done |]. simpl. lia.
Qed.

(** X1: [Palette::from_bytes] on bytes fails exactly when fewer than 768 bytes
    are given; otherwise it returns a 256-entry palette of valid colours, all
    opaque. *)
Theorem from_bytes_spec (bytes : list Z) :
  Forall u8_ok bytes ->
  (from_bytes bytes = None <-> (length bytes < 768)%nat) /\
  forall p, from_bytes bytes = Some p ->
    palette_ok p /\ Forall (fun c => a c = 255) (colors p).
Proof.
  intros Hb. unfold from_bytes. split.
  - destruct (length bytes <? 256 * 3)%nat eqn:E.
    + apply Nat.ltb_lt in E. split; [lia | done].
    + apply Nat.ltb_ge in E. split; [done | lia].
  - intros p. destruct (length bytes <? 256 * 3)%nat eqn:E; [done |].
    apply Nat.ltb_ge in E. intros Hp. apply (inj Some) in Hp. subst p.
    assert (Hn : forall j, (j < 768)%nat -> u8_ok (nth j bytes 0)).
    { intros j Hj. apply List.Forall_nth; [done | lia]. }
    split; [split |].
    + cbn [colors]. by rewrite length_map, length_seq.
    + cbn [colors]. apply List.Forall_forall. intros c (i & <- & Hi%in_seq)%in_map_iff.
      repeat split; simpl; try (apply Hn; lia). unfold u8_ok. lia.
    + cbn [colors]. apply List.Forall_forall. intros c (i & <- & _)%in_map_iff. done.
Qed.

(** X2: When [Palette::from_bytes] succeeds, [to_bytes] of its result gives
    back the first 768 input bytes. *)
Theorem from_bytes_to_bytes (bytes : list Z) (p : Palette) :
  from_bytes bytes = Some p -> to_bytes p = take 768 bytes.
Proof.
  unfold from_bytes. destruct (length bytes <? 256 * 3)%nat eqn:E; [done |].
  apply Nat.ltb_ge in E. intros Hp. apply (inj Some) in Hp. subst p.
  unfold to_bytes. cbn [colors]. rewrite from_bytes_channels by lia.
  by rewrite drop_0.
Qed.

(** X3: For every valid 256-entry palette whose colours are all opaque,
    [from_bytes (to_bytes p)] returns [p]. *)
Theorem to_bytes_from_bytes (p : Palette) :
  palette_ok p -> Forall (fun c => a c = 255) (colors p) -> from_bytes (to_bytes p) = Some p.
Proof.
  intros [Hl _] Ha. unfold from_bytes. rewrite length_to_bytes, Hl. cbn -[seq map].
  destruct p as [cs]. unfold to_bytes. cbn [colors] in *. do 2 f_equal.
  apply list_eq. intros i. rewrite list_lookup_fmap.
  destruct (decide (i < 256)%nat) as [Hi | Hi].
  - rewrite lookup_seq_lt by done. cbn [fmap option_fmap option_map].
    destruct (lookup_lt_is_Some_2 cs i) as [c Hc]; [lia |].
    rewrite Nat.add_0_l. destruct (to_bytes_nth cs i c Hc) as (-> & -> & ->).
    rewrite Hc. pose proof (Forall_lookup_1 _ _ _ _ Ha Hc) as Hac.
    destruct c as [r0 g0 b0 a0]. simpl in Hac. subst. done.
  - rewrite lookup_seq_ge by lia. rewrite lookup_ge_None_2 by lia. done.
Qed.

Lemma default_grayscale_ok : palette_ok default_grayscale.
Proof.
  split; [reflexivity |]. apply List.Forall_forall.
  intros c (i & <- & Hi%in_seq)%in_map_iff. unfold color_ok, u8_ok. simpl. lia.
Qed.

Lemma from_bytes_spec_witness :
  Forall u8_ok [1; 2; 3] /\
  (from_bytes [1; 2; 3] = None <-> (length [1; 2; 3] < 768)%nat) /\
  forall p, from_bytes [1; 2; 3] = Some p ->
    palette_ok p /\ Forall (fun c => a c = 255) (colors p).
Proof.
  assert (Hb : Forall u8_ok [1; 2; 3]) by (repeat constructor; unfold u8_ok; lia).
  split; [exact Hb |]. exact (from_bytes_spec [1; 2; 3] Hb).
Defined.

Lemma from_bytes_to_bytes_witness :
  from_bytes (to_bytes default_grayscale) = Some default_grayscale /\
  to_bytes default_grayscale = take 768 (to_bytes default_grayscale).
Proof.
  assert (H : from_bytes (to_bytes default_grayscale) = Some default_grayscale) by (vm_compute; reflexivity).
  split; [exact H |]. exact (from_bytes_to_bytes _ _ H).
Defined.

Lemma to_bytes_from_bytes_witness :
  palette_ok default_grayscale /\ Forall (fun c => a c = 255) (colors default_grayscale) /\
  from_bytes (to_bytes default_grayscale) = Some default_grayscale.
Proof.
  pose proof default_grayscale_ok as Hp.
  assert (Ha : Forall (fun c => a c = 255) (colors default_grayscale))
    by (apply List.Forall_forall; intros c (i & <- & _)%in_map_iff; reflexivity).
  split; [exact Hp |]. split; [exact Ha |]. exact (to_bytes_from_bytes _ Hp Ha).
Defined.

(** X4: Against the default grayscale palette, [best_index_rgb] maps the grey
    [(v, v, v)] to index [v] for every byte [v]. *)
Theorem best_index_rgb_grayscale (v : Z) :
  0 <= v < 256 -> best_index_rgb (from_rgb v v v) (colors default_grayscale) = v.
Proof.
  intros Hv.
  assert (Hall : forallb (fun n => best_index_rgb (from_rgb (Z.of_nat n) (Z.of_nat n) (Z.of_nat n))
                                     (colors default_grayscale) =? Z.of_nat n) (seq 0 256) = true)
    by (vm_compute; reflexivity).
  rewrite forallb_forall in Hall.
  specialize (Hall (Z.to_nat v) ltac:(apply in_seq; lia)).
  rewrite Z2Nat.id in Hall by lia. by apply Z.eqb_eq.
Qed.

Lemma best_index_rgb_grayscale_witness :
  0 <= 200 < 256 /\ best_index_rgb (from_rgb 200 200 200) (colors default_grayscale) = 200.
Proof. split; [lia | apply (best_index_rgb_grayscale 200); lia]. Defined.

Lemma tick_loop_spec (fuel : nat) (ms n acc cur adv : Z) :
  0 < ms -> 0 < n < 2 ^ 64 -> 0 <= cur <= 2 ^ 64 - 2 -> 0 <= acc ->
  (Z.to_nat (acc / ms) < fuel)%nat ->
  tick_loop fuel ms n acc cur adv =
    Done (acc mod ms, if acc / ms =? 0 then cur else (cur + acc / ms) mod n, adv + acc / ms).
Proof.
  revert acc cur adv. induction fuel as [| fuel IH]; intros acc cur adv Hms Hn Hcur Hacc Hf;
    [lia |].
  cbn [tick_loop]. destruct (ms <=? acc) eqn:E.
  - apply Z.leb_le in E.
    assert (Hq : acc / ms = (acc - ms) / ms + 1).
    { replace acc with ((acc - ms) + 1 * ms) at 1 by lia. rewrite Z_div_plus_full; lia. }
    assert (Hm : acc mod ms = (acc - ms) mod ms).
    { replace acc with ((acc - ms) + 1 * ms) at 1 by lia. rewrite Z_mod_plus_full; lia. }
    assert (Hw : usize_wrap (cur + 1) = cur + 1) by (unfold usize_wrap; apply Z.mod_small; lia).
    pose proof (Z.mod_pos_bound (cur + 1) n ltac:(lia)) as Hc'.
    assert (0 <= (acc - ms) / ms) by (apply Z.div_pos; lia).
    rewrite Hw, IH; [| lia | lia | lia | lia | lia].
    rewrite Hq, Hm. replace ((acc - ms) / ms + 1 =? 0) with false by (symmetry; apply Z.eqb_neq; lia).
    f_equal. f_equal; [f_equal |].
    + destruct ((acc - ms) / ms =? 0) eqn:E0.
      * apply Z.eqb_eq in E0. rewrite E0. done.
      * rewrite Zplus_mod_idemp_l. f_equal. lia.
    + lia.
  - apply Z.leb_gt in E.
    rewrite Z.div_small, Z.mod_small by lia. simpl. by rewrite Z.add_0_r.
Qed.

(** X5: [PreviewState::tick] on a playing preview with a non-zero frame count
    and positive [ms_per_frame] adds the elapsed time to the accumulator
    (saturating at the [u64] maximum), advances the frame by the number of
    whole periods modulo the frame count, keeps the remainder and returns the
    new frame exactly when it advanced. *)
Theorem tick_spec (elapsed_ms n : Z) (p : Preview.PreviewState) :
  Preview.playing p = true -> 0 < n < 2 ^ 64 -> 0 < Preview.ms_per_frame p ->
  0 <= Preview.current_frame p <= 2 ^ 64 - 2 -> 0 <= Preview.accumulator_ms p < 2 ^ 64 ->
  let acc := Z.min (Preview.accumulator_ms p + u64_wrap elapsed_ms) (2 ^ 64 - 1) in
  let k := acc / Preview.ms_per_frame p in
  let cur := if k =? 0 then Preview.current_frame p else (Preview.current_frame p + k) mod n in
  tick elapsed_ms n p =
    Done ({| Preview.playing := true; Preview.current_frame := cur;
             Preview.ms_per_frame := Preview.ms_per_frame p;
             Preview.accumulator_ms := acc mod Preview.ms_per_frame p |},
          if k =? 0 then None else Some cur).
Proof.
  intros Hp Hn Hms Hcur Hacc acc k cur. unfold tick. rewrite Hp.
  replace (negb true || (n =? 0)) with false by (symmetry; apply Z.eqb_neq; lia).
  fold acc.
  assert (0 <= u64_wrap elapsed_ms) by (apply Z.mod_pos_bound; lia).
  assert (0 <= acc) by (unfold acc; lia).
  rewrite tick_loop_spec by (unfold tick_fuel; lia).
  fold k. fold cur.
  rewrite Z.add_0_l.
  assert (0 <= k) by (apply Z.div_pos; lia).
  destruct (k =? 0) eqn:Ek.
  - apply Z.eqb_eq in Ek. rewrite Ek. done.
  - apply Z.eqb_neq in Ek. replace (0 <? k) with true by (symmetry; apply Z.ltb_lt; lia). done.
Qed.

Lemma tick_spec_witness :
  tick 1000 5 {| Preview.playing := true; Preview.current_frame := 3;
                 Preview.ms_per_frame := 150; Preview.accumulator_ms := 20 |} =
    Done ({| Preview.playing := true; Preview.current_frame := 4;
             Preview.ms_per_frame := 150; Preview.accumulator_ms := 120 |}, Some 4).
Proof.
  rewrite (tick_spec 1000 5 {| Preview.playing := true; Preview.current_frame := 3;
                                  Preview.ms_per_frame := 150; Preview.accumulator_ms := 20 |}
                eq_refl ltac:(lia) ltac:(simpl; lia) ltac:(simpl; lia) ltac:(simpl; lia)).
  vm_compute. reflexivity.
Defined.

(** X6: With [ms_per_frame = 0] the [while accumulator_ms >= ms_per_frame]
    loop of [PreviewState::tick] never exits: it runs out of every amount of
    fuel. *)
Theorem tick_loop_zero_ms (fuel : nat) (n acc cur adv : Z) :
  0 <= acc -> tick_loop fuel 0 n acc cur adv = OutOfFuel.
Proof.
  revert cur adv. induction fuel as [| fuel IH]; intros cur adv Hacc; [done |].
  cbn [tick_loop]. replace (0 <=? acc) with true by (symmetry; apply Z.leb_le; lia).
  rewrite Z.sub_0_r. by apply IH.
Qed.

Lemma tick_loop_zero_ms_witness : tick_loop 1000 0 5 0 3 0 = OutOfFuel.
Proof. apply (tick_loop_zero_ms 1000 5 0 3 0). lia. Defined.

Lemma with_frame_pixels_twice (s : SHP) (fi : nat) (p1 p2 : list Z) :
  with_frame_pixels (with_frame_pixels s fi p1) fi p2 = with_frame_pixels s fi p2.
Proof. unfold with_frame_pixels; simpl. by rewrite list_insert_insert_eq. Qed.

Lemma with_frame_pixels_id (s : SHP) (fi : nat) (fr : Frame) :
  frames s !! fi = Some fr -> with_frame_pixels s fi (pixels fr) = s.
Proof.
  intros Hfr. destruct s as [w h frs]. unfold with_frame_pixels; simpl in *.
  destruct fr as [px]. simpl. by rewrite list_insert_id.
Qed.

Lemma active_index_with_frame_pixels (ap : App) (s : SHP) (fi : nat) (px : list Z) :
  active_index ap (with_frame_pixels s fi px) = active_index ap s.
Proof. unfold active_index. by rewrite length_frames_with_frame_pixels. Qed.

Lemma lookup_with_frame_pixels_eq (s : SHP) (fi : nat) (fr : Frame) (px : list Z) :
  frames s !! fi = Some fr -> frames (with_frame_pixels s fi px) !! fi = Some {| pixels := px |}.
Proof.
  intros Hfr. unfold with_frame_pixels; simpl. apply list_lookup_insert_eq.
  by apply lookup_lt_Some in Hfr.
Qed.

(** X7: When the history belongs to the active frame and the undo stack is not
    empty, [undo] followed by [redo] restores the sprite and both stacks,
    leaving only the dirty flag set. *)
Theorem undo_then_redo (ap : App) (s : SHP) (fr : Frame) (prev : list Z) (rest : list (list Z)) :
  shp ap = Some s -> anchor_mismatch (undo_frame_anchor ap) (active_index ap s) = false ->
  frames s !! active_index ap s = Some fr -> undo_stack ap = prev :: rest ->
  exists ap1, undo ap = Some ap1 /\
    redo ap1 = Some (set_history ap (Some s) (undo_stack ap) (redo_stack ap)
                       (undo_frame_anchor ap) true).
Proof.
  intros Hs Ha Hfr Hu. set (fi := active_index ap s) in *.
  eexists. split.
  - unfold undo. rewrite Hs. fold fi. rewrite Ha, Hu, Hfr. reflexivity.
  - unfold redo, set_history, active_index.
    cbn [shp undo_frame_anchor redo_stack undo_stack current_frame dirty max_undo_steps].
    rewrite length_frames_with_frame_pixels. fold (active_index ap s). fold fi.
    rewrite Ha. erewrite lookup_with_frame_pixels_eq by eassumption. simpl.
    rewrite with_frame_pixels_twice, (with_frame_pixels_id s fi fr Hfr), Hu. done.
Qed.

(** X8: When the history belongs to the active frame and the redo stack is not
    empty, [redo] followed by [undo] restores the sprite and both stacks,
    leaving only the dirty flag set. *)
Theorem redo_then_undo (ap : App) (s : SHP) (fr : Frame) (next_ : list Z) (rest : list (list Z)) :
  shp ap = Some s -> anchor_mismatch (undo_frame_anchor ap) (active_index ap s) = false ->
  frames s !! active_index ap s = Some fr -> redo_stack ap = next_ :: rest ->
  exists ap1, redo ap = Some ap1 /\
    undo ap1 = Some (set_history ap (Some s) (undo_stack ap) (redo_stack ap)
                       (undo_frame_anchor ap) true).
Proof.
  intros Hs Ha Hfr Hr. set (fi := active_index ap s) in *.
  eexists. split.
  - unfold redo. rewrite Hs. fold fi. rewrite Ha, Hr, Hfr. reflexivity.
  - unfold undo, set_history, active_index.
    cbn [shp undo_frame_anchor redo_stack undo_stack current_frame dirty max_undo_steps].
    rewrite length_frames_with_frame_pixels. fold (active_index ap s). fold fi.
    rewrite Ha. erewrite lookup_with_frame_pixels_eq by eassumption. simpl.
    rewrite with_frame_pixels_twice, (with_frame_pixels_id s fi fr Hfr), Hr. done.
Qed.

Lemma length_removelast_cons {A} (x : A) (l : list A) :
  length (removelast (x :: l)) = length l.
Proof.
  revert x. induction l as [| y l IH]; intros x; [done |].
  cbn [removelast]. simpl. f_equal. apply IH.
Qed.

Lemma removelast_head {A} (x y : A) (l : list A) :
  exists l', removelast (x :: y :: l) = x :: l'.
Proof. eexists. reflexivity. Qed.

Lemma history_step_ok (ap ap' : App) :
  history_ok ap -> session_step ap ap' -> history_ok ap'.
Proof.
  unfold history_ok. intros Hok Hst. destruct Hst as [ap ap' H | ap ap' H | ap ap' H | ap | k ap
                                                     | tool ap ap' H].
  - unfold record in H. destruct (shp ap) as [s |]; [| by inversion H; subst].
    destruct (frames s !! active_index ap s) as [fr |]; cbn [mbind option_bind] in H; [| discriminate].
    apply (inj Some) in H. subst ap'. unfold set_history.
    cbn [undo_stack redo_stack max_undo_steps].
    destruct (max_undo_steps ap <? length (pixels fr :: undo_stack ap))%nat eqn:E.
    + rewrite length_removelast_cons. cbn [length]. lia.
    + apply Nat.ltb_ge in E. simpl in E |- *. lia.
  - unfold undo in H. destruct (shp ap) as [s |]; [| by inversion H; subst].
    destruct (anchor_mismatch _ _); [inversion H; subst; unfold set_history; simpl; lia |].
    destruct (undo_stack ap) as [| prev rest] eqn:Hu; [by inversion H; subst; rewrite Hu |].
    destruct (frames s !! active_index ap s) as [fr |]; simpl in H; [| discriminate].
    inversion H; subst; clear H. unfold set_history; cbn. simpl in Hok. lia.
  - unfold redo in H. destruct (shp ap) as [s |]; [| by inversion H; subst].
    destruct (anchor_mismatch _ _); [inversion H; subst; unfold set_history; simpl; lia |].
    destruct (redo_stack ap) as [| nxt rest] eqn:Hr; [by inversion H; subst; rewrite Hr |].
    destruct (frames s !! active_index ap s) as [fr |]; simpl in H; [| discriminate].
    inversion H; subst; clear H. unfold set_history; cbn. simpl in Hok. lia.
  - unfold sync_anchor. destruct (shp ap) as [s |]; [| done].
    destruct (undo_frame_anchor ap) as [anc |]; [| done].
    destruct (negb _); [unfold set_history; simpl; lia | done].
  - done.
  - unfold apply_tool in H. destruct (shp ap) as [s |]; [| by inversion H; subst].
    destruct (tool s (active_index ap s)) as [s' |]; simpl in H; [| discriminate].
    inversion H; subst. done.
Qed.

(** X9: Along any sequence of snapshot, undo, redo, anchor synchronisation,
    frame switch and raster-tool steps, the undo and redo stacks together
    never hold more than [max_undo_steps] snapshots if they did not at the
    start. *)
Theorem history_bounded (ap ap' : App) :
  history_ok ap -> rtc session_step ap ap' -> history_ok ap'.
Proof.
  intros Hok Hr. induction Hr as [ap | ap ap1 ap' Hst _ IH]; [done |].
  apply IH. by eapply history_step_ok.
Qed.

Lemma tool_local_frame_set_pixel (x y c : Z) :
  tool_local (fun s fi => frame_set_pixel s fi x y c).
Proof.
  intros s fi s' Hset. apply frame_set_pixel_cases in Hset as [-> | (fr & i & Hfr & _ & ->)].
  - destruct (frames s !! fi) as [fr |] eqn:Hfr.
    + exists (pixels fr). by rewrite with_frame_pixels_id.
    + exists []. destruct s as [w h frs]. unfold with_frame_pixels; simpl in *.
      rewrite list_insert_ge; [done |]. by apply lookup_ge_None_1.
  - by eexists.
Qed.

(** X10: Taking a snapshot and then applying a raster tool that only rewrites
    the active frame, one [undo] brings back the sprite of before the snapshot
    and a following [redo] brings back the sprite after the tool. *)
Theorem stroke_undo_restores (ap ap1 ap2 : App) (s : SHP) (tool : SHP -> nat -> option SHP) :
  shp ap = Some s -> (0 < max_undo_steps ap)%nat -> tool_local tool ->
  record ap = Some ap1 -> apply_tool tool ap1 = Some ap2 ->
  exists ap3 ap4, undo ap2 = Some ap3 /\ shp ap3 = Some s /\
                  redo ap3 = Some ap4 /\ shp ap4 = shp ap2.
Proof.
  intros Hs Hmax Hloc Hrec Htool. set (fi := active_index ap s).
  unfold record in Hrec. rewrite Hs in Hrec. fold fi in Hrec.
  destruct (frames s !! fi) as [fr |] eqn:Hfr; cbn [mbind option_bind] in Hrec; [| discriminate].
  set (u := if (max_undo_steps ap <? length (pixels fr :: undo_stack ap))%nat
            then removelast (pixels fr :: undo_stack ap) else pixels fr :: undo_stack ap) in Hrec.
  assert (Hu : exists rest, u = pixels fr :: rest).
  { unfold u. destruct (max_undo_steps ap <? _)%nat eqn:E; [| by eexists].
    apply Nat.ltb_lt in E. destruct (undo_stack ap) as [| y l]; [simpl in E; lia |].
    apply removelast_head. }
  destruct Hu as [rest Hu]. rewrite Hu in Hrec.
  apply (inj Some) in Hrec. subst ap1.
  unfold apply_tool, set_history in Htool. cbn [shp] in Htool.
  assert (Hai : active_index {| shp := Some s; current_frame := current_frame ap;
      undo_stack := pixels fr :: rest; redo_stack := []; max_undo_steps := max_undo_steps ap;
      undo_frame_anchor := Some fi; dirty := dirty ap |} s = fi) by reflexivity.
  rewrite Hai in Htool.
  destruct (tool s fi) as [s' |] eqn:Ht; cbn [mbind option_bind] in Htool; [| discriminate].
  destruct (Hloc s fi s' Ht) as [px ->].
  apply (inj Some) in Htool. subst ap2.
  assert (Hfi : anchor_mismatch (Some fi) fi = false) by (simpl; by rewrite Nat.eqb_refl).
  eexists. eexists. split; [| split; [| split]].
  - unfold undo, active_index. cbn [shp current_frame undo_frame_anchor undo_stack].
    rewrite length_frames_with_frame_pixels. fold (active_index ap s). fold fi.
    rewrite Hfi. erewrite lookup_with_frame_pixels_eq by eassumption. reflexivity.
  - unfold set_history. cbn [shp].
    by rewrite with_frame_pixels_twice, (with_frame_pixels_id s fi fr Hfr).
  - unfold redo, set_history, active_index.
    cbn [shp current_frame undo_frame_anchor redo_stack undo_stack].
    rewrite length_frames_with_frame_pixels, length_frames_with_frame_pixels.
    fold (active_index ap s). fold fi. rewrite Hfi.
    erewrite lookup_with_frame_pixels_eq.
    + reflexivity.
    + erewrite lookup_with_frame_pixels_eq by eassumption. reflexivity.
  - cbn [shp]. by rewrite !with_frame_pixels_twice.
Qed.

Lemma undo_then_redo_witness :
  exists ap1, undo (set_history demo_app (Some demo_sprite) [[1; 1; 1; 1]] [] (Some 0%nat) false) = Some ap1 /\
    redo ap1 = Some (set_history (set_history demo_app (Some demo_sprite) [[1; 1; 1; 1]] [] (Some 0%nat) false) (Some demo_sprite) (undo_stack (set_history demo_app (Some demo_sprite) [[1; 1; 1; 1]] [] (Some 0%nat) false)) (redo_stack (set_history demo_app (Some demo_sprite) [[1; 1; 1; 1]] [] (Some 0%nat) false))
                       (undo_frame_anchor (set_history demo_app (Some demo_sprite) [[1; 1; 1; 1]] [] (Some 0%nat) false)) true).
Proof.
  apply (undo_then_redo (set_history demo_app (Some demo_sprite) [[1; 1; 1; 1]] [] (Some 0%nat) false) demo_sprite {| pixels := [0; 0; 0; 0] |} [1; 1; 1; 1] []); reflexivity.
Defined.

Lemma redo_then_undo_witness :
  exists ap1, redo (set_history demo_app (Some demo_sprite) [] [[2; 2; 2; 2]] (Some 0%nat) false) = Some ap1 /\
    undo ap1 = Some (set_history (set_history demo_app (Some demo_sprite) [] [[2; 2; 2; 2]] (Some 0%nat) false) (Some demo_sprite) (undo_stack (set_history demo_app (Some demo_sprite) [] [[2; 2; 2; 2]] (Some 0%nat) false)) (redo_stack (set_history demo_app (Some demo_sprite) [] [[2; 2; 2; 2]] (Some 0%nat) false))
                       (undo_frame_anchor (set_history demo_app (Some demo_sprite) [] [[2; 2; 2; 2]] (Some 0%nat) false)) true).
Proof.
  apply (redo_then_undo (set_history demo_app (Some demo_sprite) [] [[2; 2; 2; 2]] (Some 0%nat) false) demo_sprite {| pixels := [0; 0; 0; 0] |} [2; 2; 2; 2] []); reflexivity.
Defined.

(* A session with room for one snapshot: record on frame 0, switch to
   frame 1, record again (the older snapshot is dropped), undo, redo. *)
Lemma history_bounded_witness :
  exists ap', rtc session_step (mkApp (Some demo_sprite) 0 [] [] 1 (Some 0%nat) false) ap' /\ history_ok ap' /\
    undo_stack ap' = [[3; 0; 0; 5]] /\ redo_stack ap' = [].
Proof.
  assert (Hok : history_ok (mkApp (Some demo_sprite) 0 [] [] 1 (Some 0%nat) false))
    by (unfold history_ok; simpl; lia).
  assert (Hr : rtc session_step (mkApp (Some demo_sprite) 0 [] [] 1 (Some 0%nat) false)
                 (mkApp (Some demo_sprite) 1 [[3; 0; 0; 5]] [] 1 (Some 1%nat) true)).
  { eapply rtc_l; [apply step_record; reflexivity |].
    eapply rtc_l; [apply (step_switch 1) |].
    eapply rtc_l; [apply step_record; reflexivity |].
    eapply rtc_l; [apply step_undo; reflexivity |].
    apply rtc_once. apply step_redo. vm_compute. reflexivity. }
  exists (mkApp (Some demo_sprite) 1 [[3; 0; 0; 5]] [] 1 (Some 1%nat) true).
  split; [exact Hr |]. split; [exact (history_bounded _ _ Hok Hr) |]. split; reflexivity.
Defined.

Lemma stroke_undo_restores_witness :
  exists ap1 ap2, record demo_app = Some ap1 /\
    apply_tool (fun s fi => frame_set_pixel s fi 1 1 9) ap1 = Some ap2 /\
    exists ap3 ap4, undo ap2 = Some ap3 /\ shp ap3 = Some demo_sprite /\
                    redo ap3 = Some ap4 /\ shp ap4 = shp ap2.
Proof.
  eexists. eexists. split; [reflexivity |]. split; [reflexivity |].
  eapply (stroke_undo_restores demo_app _ _ demo_sprite (fun s fi => frame_set_pixel s fi 1 1 9));
    [reflexivity | simpl; lia | apply tool_local_frame_set_pixel | reflexivity | reflexivity].
Defined.

Lemma index_inj (w x y x' y' : Z) :
  0 <= x < w -> 0 <= x' < w -> y * w + x = y' * w + x' -> x = x' /\ y = y'.
Proof.
  intros Hx Hx' He. destruct (Z.lt_trichotomy y y') as [Hl | [-> | Hl]]; [nia | lia | nia].
Qed.

Lemma frame_get_pixel_no_frame (s : SHP) (fi : nat) (x y : Z) :
  (length (frames s) <= fi)%nat -> frame_get_pixel s fi x y = Some 0.
Proof.
  intros H. unfold frame_get_pixel. destruct ((x <? 0) || (y <? 0)); [done |].
  by replace (length (frames s) <=? fi)%nat with true by (symmetry; apply Nat.leb_le; lia).
Qed.

Lemma wf_write (s : SHP) (fi : nat) (fr : Frame) (i : nat) (c : Z) :
  wf s -> frames s !! fi = Some fr -> u8_ok c ->
  wf (with_frame_pixels s fi (<[i:=c]> (pixels fr))).
Proof.
  intros (Hu & Hwh & Hf) Hfr Hc. split; [done |]. split; [done |].
  unfold with_frame_pixels; simpl.
  pose proof (Forall_lookup_1 _ _ _ _ Hf Hfr) as [Hl Hb].
  apply Forall_insert; [done |]. split; simpl.
  - by rewrite length_insert.
  - by apply Forall_insert.
Qed.

Lemma wf_frame_set_pixel (s s' : SHP) (fi : nat) (x y c : Z) :
  wf s -> u8_ok c -> frame_set_pixel s fi x y c = Some s' -> wf s'.
Proof.
  intros Hs Hc Hset. apply frame_set_pixel_cases in Hset as [-> | (fr & i & Hfr & _ & ->)];
    [done | by apply wf_write].
Qed.

Lemma frame_set_pixel_law (s : SHP) (fi : nat) (x y c : Z) :
  wf s -> (fi < length (frames s))%nat -> u8_ok c ->
  exists s', frame_set_pixel s fi x y c = Some s' /\ wf s' /\
    forall fi' x' y', frame_get_pixel s' fi' x' y' =
      if decide (fi' = fi /\ x' = x /\ y' = y /\ 0 <= x < width s /\ 0 <= y < height s)
      then Some c else frame_get_pixel s fi' x' y'.
Proof.
  intros Hs Hfi Hc.
  destruct (decide (0 <= x < width s /\ 0 <= y < height s)) as [[Hx Hy] | Hout].
  - destruct (lookup_lt_is_Some_2 _ _ Hfi) as [fr Hfr].
    destruct Hs as (Hu & Hwh & Hf).
    pose proof (Forall_lookup_1 _ _ _ _ Hf Hfr) as [Hl Hb].
    destruct (inside_index (width s) (height s) x y Hx Hy Hwh) as [Hi Hlt].
    set (i := Z.to_nat (y * width s + x)).
    exists (with_frame_pixels s fi (<[i:=c]> (pixels fr))).
    split; [| split].
    + rewrite (frame_set_pixel_inside s fi x y c fr Hfr Hx Hy), Hi. fold i.
      destruct (lookup_lt_is_Some_2 (pixels fr) i) as [v Hv]; [unfold i; rewrite Hl; apply Z2Nat.inj_lt; nia |].
      by rewrite (vec_set_lookup (pixels fr) i c v Hv).
    + by apply wf_write.
    + intros fi' x' y'.
      destruct (decide (0 <= x' < width s /\ 0 <= y' < height s)) as [[Hx' Hy'] | Hout'].
      * destruct (decide (fi' < length (frames s))%nat) as [Hfi' | Hfi'].
        -- destruct (lookup_lt_is_Some_2 _ _ Hfi') as [fr' Hfr'].
           destruct (inside_index (width s) (height s) x' y' Hx' Hy' Hwh) as [Hi' Hlt'].
           rewrite (frame_get_pixel_inside s fi' x' y' fr' Hfr' Hx' Hy').
           rewrite (frame_get_pixel_inside _ fi' x' y' {| pixels := if decide (fi' = fi)
             then <[i:=c]> (pixels fr) else pixels fr' |}); [| | done | done].
           ++ cbn [pixels width with_frame_pixels]. rewrite Hi'.
              destruct (decide (fi' = fi)) as [-> | Hne].
              ** rewrite Hfr' in Hfr. inversion Hfr; subst fr'.
                 destruct (decide (x' = x /\ y' = y)) as [[-> ->] | Hne'].
                 --- rewrite decide_True by lia. unfold i. rewrite list_lookup_insert_eq; [done | rewrite Hl; apply Z2Nat.inj_lt; nia].
                 --- rewrite decide_False by tauto.
                     rewrite list_lookup_insert_ne; [done |]. unfold i.
                     intros He. apply Z2Nat.inj in He; [| nia | nia].
                     apply index_inj in He; [destruct He; apply Hne'; split; congruence | lia | lia].
              ** rewrite decide_False by tauto. done.
           ++ rewrite frames_with_frame_pixels.
              destruct (decide (fi' = fi)) as [-> | Hne]; [| rewrite Hfr'; by destruct fr'].
              rewrite bool_decide_eq_true_2 by lia. done.
        -- rewrite (frame_get_pixel_no_frame s) by lia.
           rewrite frame_get_pixel_no_frame by (rewrite length_frames_with_frame_pixels; lia).
           rewrite decide_False by (intros (-> & _); lia). done.
      * assert (Ho : outside s x' y') by (unfold outside; lia).
        rewrite (frame_get_pixel_outside s fi' x' y' Ho).
        rewrite frame_get_pixel_outside by (unfold outside in *; simpl; lia).
        rewrite decide_False by (intros (_ & -> & -> & _); lia). done.
  - assert (Ho : outside s x y) by (unfold outside; lia).
    exists s. split; [by apply frame_set_pixel_outside |]. split; [done |].
    intros fi' x' y'. rewrite decide_False by tauto. done.
Qed.

(** X11: On a well-formed sprite and an existing frame, [frame_set_pixel]
    never panics, keeps the sprite well-formed, and afterwards
    [frame_get_pixel] returns the new colour at that pixel when it lies on the
    canvas and the old value everywhere else. *)
Theorem frame_get_set (s : SHP) (fi : nat) (x y c : Z) :
  wf s -> (fi < length (frames s))%nat -> u8_ok c ->
  exists s', frame_set_pixel s fi x y c = Some s' /\ wf s' /\
    forall fi' x' y', frame_get_pixel s' fi' x' y' =
      if decide (fi' = fi /\ x' = x /\ y' = y /\ 0 <= x < width s /\ 0 <= y < height s)
      then Some c else frame_get_pixel s fi' x' y'.
Proof. apply frame_set_pixel_law. Qed.

Lemma frame_get_set_witness :
  exists s', frame_set_pixel demo_sprite 1 0 1 7 = Some s' /\ wf s' /\
    forall fi' x' y', frame_get_pixel s' fi' x' y' =
      if decide (fi' = 1%nat /\ x' = 0 /\ y' = 1 /\ 0 <= 0 < width demo_sprite /\
                 0 <= 1 < height demo_sprite)
      then Some 7 else frame_get_pixel demo_sprite fi' x' y'.
Proof.
  apply frame_get_set; [| simpl; lia | unfold u8_ok; lia].
  split; [unfold u32_fields; simpl; lia |]. split; [simpl; lia |].
  repeat constructor; simpl; try lia; repeat constructor; unfold u8_ok; lia.
Defined.

Lemma frame_set_pixel_shape (s s' : SHP) (fi : nat) (x y c : Z) :
  frame_set_pixel s fi x y c = Some s' ->
  width s' = width s /\ height s' = height s /\ length (frames s') = length (frames s).
Proof.
  intros H. apply frame_set_pixel_cases in H as [-> | (fr & i & _ & _ & ->)]; [done |].
  by rewrite width_with_frame_pixels, height_with_frame_pixels, length_frames_with_frame_pixels.
Qed.

(** Painting a list of points [(y, x)] one after the other. *)
Lemma paint_points_law (s : SHP) (fi : nat) (c : Z) (pts : list (Z * Z)) :
  wf s -> (fi < length (frames s))%nat -> u8_ok c ->
  exists s', foldM_opt (fun s' (yx : Z * Z) => frame_set_pixel s' fi yx.2 yx.1 c) s pts = Some s' /\
    wf s' /\ width s' = width s /\ height s' = height s /\
    length (frames s') = length (frames s) /\
    forall fi' x' y', frame_get_pixel s' fi' x' y' =
      if decide (fi' = fi /\ (y', x') ∈ pts /\ 0 <= x' < width s /\ 0 <= y' < height s)
      then Some c else frame_get_pixel s fi' x' y'.
Proof.
  revert s. induction pts as [| [y x] pts IH]; intros s Hs Hfi Hc.
  - exists s. do 5 (split; [done |]). intros fi' x' y'. destruct (decide _) as [(_ & Hin & _)|]; [by apply elem_of_nil in Hin | done].
  - destruct (frame_set_pixel_law s fi x y c Hs Hfi Hc) as (s1 & Hset & Hs1 & Hget1).
    destruct (frame_set_pixel_shape _ _ _ _ _ _ Hset) as (Hw1 & Hh1 & Hl1).
    destruct (IH s1 Hs1 ltac:(lia) Hc) as (s2 & Hfold & Hs2 & Hw2 & Hh2 & Hl2 & Hget2).
    exists s2. cbn [foldM_opt fst snd]. rewrite Hset. cbn [mbind option_bind fst snd].
    split; [done |]. split; [done |]. split; [congruence |]. split; [congruence |].
    split; [congruence |].
    intros fi' x' y'. rewrite Hget2, Hget1, Hw1, Hh1.
    destruct (decide (fi' = fi /\ (y', x') ∈ pts /\ 0 <= x' < width s /\ 0 <= y' < height s))
      as [H1 | H1];
    destruct (decide (fi' = fi /\ x' = x /\ y' = y /\ 0 <= x < width s /\ 0 <= y < height s))
      as [H2 | H2];
    destruct (decide (fi' = fi /\ (y', x') ∈ (y, x) :: pts /\ 0 <= x' < width s /\ 0 <= y' < height s))
      as [H3 | H3]; try done.
    + exfalso. apply H3. rewrite elem_of_cons. tauto.
    + exfalso. apply H3. rewrite elem_of_cons. tauto.
    + exfalso. apply H3. destruct H2 as (-> & -> & -> & ? & ?). rewrite elem_of_cons. tauto.
    + exfalso. destruct H3 as (-> & Hin & ? & ?). rewrite elem_of_cons in Hin.
      destruct Hin as [He | Hin].
      * inversion He; subst. apply H2. tauto.
      * apply H1. tauto.
Qed.

Lemma in_zrange_incl (lo hi k : Z) : In k (zrange_incl lo hi) <-> lo <= k <= hi.
Proof.
  unfold zrange_incl. rewrite in_map_iff. split.
  - intros (n & <- & Hn). apply in_seq in Hn. lia.
  - intros Hk. exists (Z.to_nat (k - lo)). split; [lia |]. apply in_seq. lia.
Qed.

Lemma in_rect_points (lx rx ty by_ x y : Z) :
  In (y, x) (flat_map (fun y => map (fun x => (y, x)) (zrange_incl lx rx)) (zrange_incl ty by_)) <->
  ty <= y <= by_ /\ lx <= x <= rx.
Proof.
  rewrite in_flat_map. split.
  - intros (y0 & Hy0 & Hin). apply in_map_iff in Hin as (x0 & He & Hx0).
    inversion He; subst. rewrite in_zrange_incl in Hy0, Hx0. lia.
  - intros [Hy Hx]. exists y. split; [by apply in_zrange_incl |].
    apply in_map_iff. exists x. split; [done | by apply in_zrange_incl].
Qed.

(** X12: [fill_rect_on_frame] on a well-formed sprite and an existing frame
    succeeds, keeps the sprite well-formed and its size, and sets exactly the
    canvas pixels of that frame inside the rectangle spanned by the two
    corners (in either order) to the colour. *)
Theorem fill_rect_on_frame_spec (s : SHP) (fi : nat) (x0 y0 x1 y1 c : Z) :
  wf s -> (fi < length (frames s))%nat -> u8_ok c ->
  exists s', fill_rect_on_frame s fi x0 y0 x1 y1 c = Some s' /\ wf s' /\
    width s' = width s /\ height s' = height s /\
    forall fi' x y, frame_get_pixel s' fi' x y =
      if decide (fi' = fi /\ Z.min x0 x1 <= x <= Z.max x0 x1 /\ Z.min y0 y1 <= y <= Z.max y0 y1 /\
                 0 <= x < width s /\ 0 <= y < height s)
      then Some c else frame_get_pixel s fi' x y.
Proof.
  intros Hs Hfi Hc. unfold fill_rect_on_frame.
  set (lx := if x0 <=? x1 then x0 else x1). set (rx := if x0 <=? x1 then x1 else x0).
  set (ty := if y0 <=? y1 then y0 else y1). set (by_ := if y0 <=? y1 then y1 else y0).
  replace (if x0 <=? x1 then (x0, x1) else (x1, x0)) with (lx, rx)
    by (unfold lx, rx; by destruct (x0 <=? x1)).
  replace (if y0 <=? y1 then (y0, y1) else (y1, y0)) with (ty, by_)
    by (unfold ty, by_; by destruct (y0 <=? y1)).
  destruct (paint_points_law s fi c
    (flat_map (fun y => map (fun x => (y, x)) (zrange_incl lx rx)) (zrange_incl ty by_)) Hs Hfi Hc)
    as (s' & Hf & Hs' & Hw & Hh & _ & Hget).
  exists s'. split; [done |]. split; [done |]. split; [done |]. split; [done |].
  intros fi' x y. rewrite Hget.
  assert (Hx : lx = Z.min x0 x1 /\ rx = Z.max x0 x1)
    by (unfold lx, rx; destruct (Z.leb_spec x0 x1); lia).
  assert (Hy : ty = Z.min y0 y1 /\ by_ = Z.max y0 y1)
    by (unfold ty, by_; destruct (Z.leb_spec y0 y1); lia).
  destruct Hx as [-> ->], Hy as [-> ->].
  apply decide_ext. rewrite list_elem_of_In, in_rect_points. tauto.
Qed.

Lemma demo_sprite_wf : wf demo_sprite.
Proof.
  split; [unfold u32_fields; simpl; lia |]. split; [simpl; lia |].
  repeat constructor; simpl; try lia; repeat constructor; unfold u8_ok; lia.
Qed.

Lemma fill_rect_on_frame_spec_witness :
  exists s', fill_rect_on_frame demo_sprite 1 1 0 0 0 9 = Some s' /\ wf s' /\
    width s' = width demo_sprite /\ height s' = height demo_sprite /\
    forall fi' x y, frame_get_pixel s' fi' x y =
      if decide (fi' = 1%nat /\ Z.min 1 0 <= x <= Z.max 1 0 /\ Z.min 0 0 <= y <= Z.max 0 0 /\
                 0 <= x < width demo_sprite /\ 0 <= y < height demo_sprite)
      then Some 9 else frame_get_pixel demo_sprite fi' x y.
Proof.
  apply fill_rect_on_frame_spec; [apply demo_sprite_wf | simpl; lia | unfold u8_ok; lia].
Defined.

Lemma i32_wrap_id (z : Z) : -2 ^ 31 <= z < 2 ^ 31 -> i32_wrap z = z.
Proof.
  intros Hz. unfold i32_wrap, i32_of_u32.
  destruct (Z.leb_spec 0 z).
  - rewrite Z.mod_small by lia. rewrite (proj2 (Z.ltb_lt _ _)) by lia. done.
  - replace (z mod 2 ^ 32) with (z + 2 ^ 32).
    + rewrite (proj2 (Z.ltb_ge _ _)) by lia. lia.
    + apply Z.mod_unique with (-1); lia.
Qed.

Lemma i32_of_u32_id (z : Z) : 0 <= z < 2 ^ 31 -> i32_of_u32 z = z.
Proof. intros Hz. apply (i32_wrap_id z). lia. Qed.

Lemma best_index_rgb_range (color : Color32) (pal : list Color32) :
  length pal = 256%nat -> 0 <= best_index_rgb color pal < 256.
Proof.
  intros Hl. unfold best_index_rgb.
  destruct (best_loop_spec color pal 0 0 (2 ^ 32 - 1)) as [[-> _] | (j & cj & -> & Hj & _)]; [lia |].
  apply lookup_lt_Some in Hj. lia.
Qed.

Lemma get_pixel_in_bounds (im : RgbaImage) (x y : Z) :
  0 <= x < img_width im -> 0 <= y < img_height im ->
  length (img_data im) = Z.to_nat (4 * img_width im * img_height im) ->
  is_Some (get_pixel im x y).
Proof.
  intros Hx Hy Hl. unfold get_pixel.
  rewrite (proj2 (Z.leb_gt (img_width im) x) ltac:(lia)), (proj2 (Z.leb_gt (img_height im) y) ltac:(lia)). simpl.
  assert (Hi : (Z.to_nat (4 * (y * img_width im + x)) + 3 < length (img_data im))%nat).
  { rewrite Hl. assert (y * img_width im + x < img_width im * img_height im) by nia.
    apply Nat2Z.inj_lt. rewrite Nat2Z.inj_add, !Z2Nat.id by nia. lia. }
  destruct (lookup_lt_is_Some_2 (img_data im) (Z.to_nat (4 * (y * img_width im + x)))) as [v0 ->]; [lia |].
  destruct (lookup_lt_is_Some_2 (img_data im) (Z.to_nat (4 * (y * img_width im + x)) + 1)) as [v1 ->]; [lia |].
  destruct (lookup_lt_is_Some_2 (img_data im) (Z.to_nat (4 * (y * img_width im + x)) + 2)) as [v2 ->]; [lia |].
  destruct (lookup_lt_is_Some_2 (img_data im) (Z.to_nat (4 * (y * img_width im + x)) + 3)) as [v3 ->]; [lia |].
  simpl. eauto.
Qed.

(** One cell of [paste_rgba_at] is a [frame_set_pixel] at the shifted
    position, or nothing for an almost transparent source pixel. *)
Lemma paste_cell_set (s : SHP) (frame : nat) (rgba : RgbaImage) (dx dy : Z) (pal : list Color32)
    (x y r0 g0 b0 a0 : Z) :
  (frame < length (frames s))%nat -> width s < 2 ^ 31 -> height s < 2 ^ 31 ->
  -2 ^ 31 <= x + dx < 2 ^ 31 -> -2 ^ 31 <= y + dy < 2 ^ 31 ->
  get_pixel rgba x y = Some (r0, g0, b0, a0) ->
  paste_cell (width s) (height s) dx dy pal rgba frame s (y, x) =
    if a0 <? 8 then Some s
    else frame_set_pixel s frame (x + dx) (y + dy) (best_index_rgb (from_rgb r0 g0 b0) pal).
Proof.
  intros Hf Hw Hh Hx Hy Hg. unfold paste_cell. rewrite Hg.
  destruct (a0 <? 8); [done |].
  rewrite !i32_wrap_id by done. unfold frame_set_pixel.
  rewrite (proj2 (Nat.leb_gt _ _) Hf).
  destruct (Z.leb_spec 0 (x + dx)), (Z.leb_spec 0 (y + dy)),
    (Z.ltb_spec (x + dx) (width s)), (Z.ltb_spec (y + dy) (height s)),
    (Z.ltb_spec (x + dx) 0), (Z.ltb_spec (y + dy) 0),
    (Z.leb_spec (width s) (x + dx)), (Z.leb_spec (height s) (y + dy));
    simpl; try done; lia.
Qed.

Lemma paste_fold (frame : nat) (rgba : RgbaImage) (dx dy : Z) (pal : list Color32)
    (fw fh : Z) (pts : list (Z * Z)) :
  fw < 2 ^ 31 -> fh < 2 ^ 31 -> length pal = 256%nat ->
  Forall (fun yx => is_Some (get_pixel rgba yx.2 yx.1) /\
    -2 ^ 31 <= yx.2 + dx < 2 ^ 31 /\ -2 ^ 31 <= yx.1 + dy < 2 ^ 31) pts ->
  forall s, wf s -> width s = fw -> height s = fh -> (frame < length (frames s))%nat ->
  exists s', foldM_opt (paste_cell fw fh dx dy pal rgba frame) s pts = Some s' /\
    wf s' /\ width s' = width s /\ height s' = height s /\
    length (frames s') = length (frames s) /\
    forall fi' X Y, frame_get_pixel s' fi' X Y =
      if decide (fi' = frame /\ 0 <= X < width s /\ 0 <= Y < height s /\ (Y - dy, X - dx) ∈ pts)
      then match get_pixel rgba (X - dx) (Y - dy) with
           | Some (r0, g0, b0, a0) =>
             if a0 <? 8 then frame_get_pixel s fi' X Y
             else Some (best_index_rgb (from_rgb r0 g0 b0) pal)
           | None => frame_get_pixel s fi' X Y
           end
      else frame_get_pixel s fi' X Y.
Proof.
  intros Hfw Hfh Hpal Hpts. induction Hpts as [| [y x] pts [[[[[r0 g0] b0] a0] Hg] [Hx Hy]] Hpts IH];
    intros s Hs Hw Hh Hf.
  - exists s. do 5 (split; [done |]). intros fi' X Y.
    destruct (decide _) as [(_ & _ & _ & Hin) |]; [by apply elem_of_nil in Hin | done].
  - cbn [fst snd] in *. subst fw fh. cbn [foldM_opt].
    rewrite (paste_cell_set s frame rgba dx dy pal x y r0 g0 b0 a0 Hf Hfw Hfh Hx Hy Hg).
    set (idx := best_index_rgb (from_rgb r0 g0 b0) pal).
    assert (Hstep : exists s1,
      (if a0 <? 8 then Some s else frame_set_pixel s frame (x + dx) (y + dy) idx) = Some s1 /\
      wf s1 /\ width s1 = width s /\ height s1 = height s /\ length (frames s1) = length (frames s) /\
      forall fi' X Y, frame_get_pixel s1 fi' X Y =
        if decide (fi' = frame /\ 0 <= X < width s /\ 0 <= Y < height s /\ X - dx = x /\ Y - dy = y)
        then (if a0 <? 8 then frame_get_pixel s fi' X Y else Some idx)
        else frame_get_pixel s fi' X Y).
    { destruct (a0 <? 8).
      - exists s. do 5 (split; [done |]). intros. by destruct (decide _).
      - destruct (frame_set_pixel_law s frame (x + dx) (y + dy) idx Hs Hf) as (s1 & Hset & Hs1 & Hget1).
        { pose proof (best_index_rgb_range (from_rgb r0 g0 b0) pal Hpal). unfold u8_ok. lia. }
        destruct (frame_set_pixel_shape _ _ _ _ _ _ Hset) as (Hw1 & Hh1 & Hl1).
        exists s1. do 5 (split; [done |]). intros fi' X Y. rewrite Hget1.
        apply decide_ext. lia. }
    destruct Hstep as (s1 & Hset & Hs1 & Hw1 & Hh1 & Hl1 & Hget1).
    rewrite Hset. cbn [mbind option_bind foldM_opt].
    destruct (IH s1 Hs1 ltac:(lia) ltac:(lia) ltac:(lia)) as (s2 & Hfold & Hs2 & Hw2 & Hh2 & Hl2 & Hget2).
    exists s2. split; [done |]. split; [done |]. split; [lia |]. split; [lia |]. split; [lia |].
    intros fi' X Y. rewrite Hget2, Hw1, Hh1, Hget1.
    destruct (decide (X - dx = x /\ Y - dy = y)) as [[HX HY] | Hne].
    + replace (get_pixel rgba (X - dx) (Y - dy)) with (Some (r0, g0, b0, a0)) by (by rewrite HX, HY).
      assert (Hin : (Y - dy, X - dx) ∈ (y, x) :: pts) by (rewrite HX, HY; left).
      destruct (decide (fi' = frame /\ 0 <= X < width s /\ 0 <= Y < height s)) as [Hc | Hc].
      * rewrite (decide_True (P := fi' = frame /\ 0 <= X < width s /\ 0 <= Y < height s /\ X - dx = x /\ Y - dy = y)) by tauto.
        rewrite (decide_True (P := fi' = frame /\ 0 <= X < width s /\ 0 <= Y < height s /\ (Y - dy, X - dx) ∈ (y, x) :: pts)) by tauto.
        destruct (decide _); destruct (a0 <? 8); done.
      * rewrite !decide_False by tauto. done.
    + rewrite (decide_False (P := fi' = frame /\ 0 <= X < width s /\ 0 <= Y < height s /\ X - dx = x /\ Y - dy = y)) by tauto.
      apply decide_ext. rewrite elem_of_cons.
      split; [tauto |]. intros (? & ? & ? & [He | ?]); [| tauto].
      inversion He. tauto.
Qed.

Lemma in_image_points (iw ih x y : Z) :
  (y, x) ∈ flat_map (fun y => map (fun x => (y, x)) (zrange iw)) (zrange ih) <->
  0 <= x < iw /\ 0 <= y < ih.
Proof.
  rewrite list_elem_of_In, in_flat_map. split.
  - intros (y0 & Hy0 & Hin). apply in_map_iff in Hin as (x0 & He & Hx0).
    inversion He; subst. apply in_zrange_inv in Hy0, Hx0. lia.
  - intros [Hx Hy]. exists y. split; [by apply in_zrange |].
    apply in_map_iff. exists x. split; [done | by apply in_zrange].
Qed.

(** X16: [SHP::paste_rgba_at] with an RGBA image whose byte count matches its
    size, a 256-entry palette and a placement that does not overflow [i32]
    succeeds, keeps the sprite well-formed and its size, and sets each canvas
    pixel of the frame covered by an image pixel of alpha at least 8 to the
    nearest palette index of that pixel's colour, leaving every other pixel
    unchanged. *)
Theorem paste_rgba_at_spec (s : SHP) (frame : nat) (rgba : RgbaImage) (dx dy : Z) (pal : Palette) :
  wf s -> (frame < length (frames s))%nat -> width s < 2 ^ 31 -> height s < 2 ^ 31 ->
  0 <= img_width rgba < 2 ^ 31 -> 0 <= img_height rgba < 2 ^ 31 ->
  length (img_data rgba) = Z.to_nat (4 * img_width rgba * img_height rgba) ->
  length (colors pal) = 256%nat ->
  -2 ^ 31 <= dx -> img_width rgba + dx <= 2 ^ 31 ->
  -2 ^ 31 <= dy -> img_height rgba + dy <= 2 ^ 31 ->
  exists s', paste_rgba_at s frame rgba dx dy pal = Some s' /\ wf s' /\
    width s' = width s /\ height s' = height s /\
    forall fi' X Y, frame_get_pixel s' fi' X Y =
      if decide (fi' = frame /\ 0 <= X < width s /\ 0 <= Y < height s /\
                 0 <= X - dx < img_width rgba /\ 0 <= Y - dy < img_height rgba)
      then match get_pixel rgba (X - dx) (Y - dy) with
           | Some (r0, g0, b0, a0) =>
             if a0 <? 8 then frame_get_pixel s fi' X Y
             else Some (best_index_rgb (from_rgb r0 g0 b0) (colors pal))
           | None => frame_get_pixel s fi' X Y
           end
      else frame_get_pixel s fi' X Y.
Proof.
  intros Hs Hf Hw Hh Hiw Hih Hdata Hpal Hdx1 Hdx2 Hdy1 Hdy2.
  pose proof Hs as (Hu & _ & _). unfold u32_fields in Hu.
  unfold paste_rgba_at. rewrite (proj2 (Nat.leb_gt _ _) Hf).
  rewrite !i32_of_u32_id by lia.
  destruct (paste_fold frame rgba dx dy (colors pal) (width s) (height s)
    (flat_map (fun y => map (fun x => (y, x)) (zrange (img_width rgba))) (zrange (img_height rgba)))
    Hw Hh Hpal) with (s := s) as (s' & Hfold & Hs' & Hw' & Hh' & _ & Hget); try done.
  { apply Forall_forall. intros [y x] Hin. apply in_image_points in Hin.
    cbn [fst snd]. split; [apply get_pixel_in_bounds; [lia | lia | done] | lia]. }
  exists s'. do 4 (split; [done |]). intros fi' X Y. rewrite Hget.
  apply decide_ext. rewrite in_image_points. tauto.
Qed.

Lemma paste_rgba_at_spec_witness :
  exists s', paste_rgba_at demo_sprite 1 (mkRgbaImage 1 1 [200; 200; 200; 255]) 1 1 default_grayscale = Some s' /\
    wf s' /\ width s' = width demo_sprite /\ height s' = height demo_sprite /\
    forall fi' X Y, frame_get_pixel s' fi' X Y =
      if decide (fi' = 1%nat /\ 0 <= X < width demo_sprite /\ 0 <= Y < height demo_sprite /\
                 0 <= X - 1 < 1 /\ 0 <= Y - 1 < 1)
      then match get_pixel (mkRgbaImage 1 1 [200; 200; 200; 255]) (X - 1) (Y - 1) with
           | Some (r0, g0, b0, a0) =>
             if a0 <? 8 then frame_get_pixel demo_sprite fi' X Y
             else Some (best_index_rgb (from_rgb r0 g0 b0) (colors default_grayscale))
           | None => frame_get_pixel demo_sprite fi' X Y
           end
      else frame_get_pixel demo_sprite fi' X Y.
Proof.
  apply (paste_rgba_at_spec demo_sprite 1 (mkRgbaImage 1 1 [200; 200; 200; 255]) 1 1 default_grayscale);
    first [apply demo_sprite_wf | reflexivity | simpl; lia].
Defined.

Lemma rbind_safe {A B} (P : A -> Prop) (Q : B -> Prop) (m : reader A) (k : A -> reader B) :
  reader_safe P m -> (forall x, P x -> reader_safe Q (k x)) -> reader_safe Q (rbind m k).
Proof.
  intros Hm Hk src Hsrc. unfold rbind. specialize (Hm src Hsrc).
  destruct (m src) as [[x src1] | e]; [| done].
  destruct Hm as [Hx Hsrc1]. by apply Hk.
Qed.

Lemma rret_safe {A} (P : A -> Prop) (x : A) : P x -> reader_safe P (rret x).
Proof. intros Hx src Hsrc. by split. Qed.

Lemma rfail_safe {A} (P : A -> Prop) (e : shp_error) : e <> Panic -> reader_safe P (rfail e).
Proof. intros He src _. done. Qed.

Lemma rlift_safe {A} (P : A -> Prop) (r : result A) : result_safe P r -> reader_safe P (rlift r).
Proof. intros Hr src Hsrc. unfold rlift. destruct r; simpl in *; [by split | done]. Qed.

Lemma reader_safe_weaken {A} (P Q : A -> Prop) (m : reader A) :
  (forall x, P x -> Q x) -> reader_safe P m -> reader_safe Q m.
Proof.
  intros HPQ Hm src Hsrc. specialize (Hm src Hsrc). destruct (m src) as [[x src'] | e]; [| done].
  destruct Hm; split; auto.
Qed.

Lemma read_exact_safe (n : nat) :
  reader_safe (fun bs => length bs = n /\ Forall u8_ok bs) (read_exact n).
Proof.
  intros src Hsrc. unfold read_exact.
  destruct (length src <? n)%nat eqn:E; [done |]. apply Nat.ltb_ge in E.
  split; [split; [rewrite length_take; lia | by apply Forall_take] | by apply Forall_drop].
Qed.

Lemma read_u16_safe : reader_safe (fun v => 0 <= v < 2 ^ 16) read_u16.
Proof.
  unfold read_u16. apply (rbind_safe _ _ _ _ (read_exact_safe 2)).
  intros bs [Hl Hb]. apply rret_safe.
  destruct bs as [| b0 [| b1 [| ? ?]]]; try discriminate.
  inversion Hb as [| ? ? [? ?] Hb1]; subst. inversion Hb1 as [| ? ? [? ?] _]; subst.
  unfold le_value; simpl. lia.
Qed.

Lemma read_u32_safe : reader_safe (fun _ => True) read_u32.
Proof.
  unfold read_u32. apply (rbind_safe _ _ _ _ (read_exact_safe 4)). intros. by apply rret_safe.
Qed.

Lemma read_fheader_safe : reader_safe (fun _ => True) read_fheader.
Proof.
  unfold read_fheader.
  apply (rbind_safe _ _ _ _ read_u16_safe); intros.
  apply (rbind_safe _ _ _ _ read_u16_safe); intros.
  apply (rbind_safe _ _ _ _ read_u16_safe); intros.
  apply (rbind_safe _ _ _ _ read_u16_safe); intros.
  apply (rbind_safe _ _ _ _ read_u32_safe); intros.
  apply (rbind_safe _ _ _ _ (read_exact_safe 4)); intros.
  apply (rbind_safe _ _ _ _ read_u32_safe); intros.
  apply (rbind_safe _ _ _ _ read_u32_safe); intros.
  by apply rret_safe.
Qed.

Lemma read_fheaders_safe (n : nat) : reader_safe (fun fhs => length fhs = n) (read_fheaders n).
Proof.
  induction n as [| n IH]; cbn [read_fheaders]; [by apply rret_safe |].
  apply (rbind_safe _ _ _ _ read_fheader_safe); intros.
  apply (rbind_safe _ _ _ _ IH); intros fhs Hl.
  apply rret_safe. simpl. lia.
Qed.

(** [put_pixel] on a [w * h] buffer never indexes out of range. *)
Lemma put_pixel_safe (w h x y v : Z) (px : list Z) :
  1 <= w -> 1 <= h -> buf_ok w h px -> u8_ok v -> result_safe (buf_ok w h) (put_pixel w h x y v px).
Proof.
  intros Hw Hh [Hl Hb] Hv. unfold put_pixel.
  destruct (Z.ltb_spec x w), (Z.ltb_spec y h); simpl; try (by split).
  unfold vec_set. rewrite bool_decide_eq_true_2.
  - simpl. split; [by rewrite length_insert | by apply Forall_insert].
  - rewrite Hl. assert (y * w + x < w * h) by nia. lia.
Qed.

Lemma raw_row_safe (w h y : Z) (row : list Z) :
  1 <= w -> 1 <= h -> Forall u8_ok row ->
  forall x px, buf_ok w h px -> result_safe (buf_ok w h) (raw_row w h y x row px).
Proof.
  intros Hw Hh. induction 1 as [| v row Hv _ IH]; intros x px Hpx; [done |].
  cbn [raw_row]. pose proof (put_pixel_safe w h x y v px Hw Hh Hpx Hv) as Hp.
  destruct (put_pixel w h x y v px); [by apply IH | done].
Qed.

Lemma scan_row_safe (w h y : Z) :
  1 <= w -> 1 <= h ->
  forall rem x px, buf_ok w h px -> reader_safe (buf_ok w h) (scan_row w h y rem x px).
Proof.
  intros Hw Hh rem x px Hpx src Hsrc. revert rem x px Hpx.
  induction Hsrc as [| v src Hv Hsrc IH]; intros rem x px Hpx; cbn [scan_row].
  - by destruct (rem =? 0).
  - destruct (rem =? 0); [by split; [| constructor] |].
    pose proof (put_pixel_safe w h x y v px Hw Hh Hpx Hv) as Hp.
    destruct (put_pixel w h x y v px); [by apply IH | done].
Qed.

Lemma rle0_row_safe (w h y : Z) :
  1 <= w -> 1 <= h ->
  forall rem x px, buf_ok w h px -> reader_safe (buf_ok w h) (rle0_row w h y rem x px).
Proof.
  intros Hw Hh rem x px Hpx src Hsrc. revert rem x px Hpx.
  induction src as [src IH] using (induction_ltof1 _ (@length Z)); intros rem x px Hpx.
  destruct src as [| v src1]; cbn [rle0_row].
  - by destruct (rem =? 0).
  - destruct (rem =? 0); [done |].
    inversion Hsrc as [| ? ? Hv Hsrc1]; subst.
    destruct (v =? 0).
    + destruct src1 as [| c src2]; [done |].
      inversion Hsrc1 as [| ? ? _ Hsrc2]; subst.
      apply IH; [unfold ltof; simpl; lia | done | done].
    + pose proof (put_pixel_safe w h x y v px Hw Hh Hpx Hv) as Hp.
      destruct (put_pixel w h x y v px); [| done].
      apply IH; [unfold ltof; simpl; lia | done | done].
Qed.

Lemma rle0_rows_safe (w h : Z) (fh0 : FHeader) (rows : nat) :
  1 <= w -> 1 <= h ->
  forall y px, buf_ok w h px -> reader_safe (buf_ok w h) (rle0_rows w h fh0 rows y px).
Proof.
  intros Hw Hh. induction rows as [| k IH]; intros y px Hpx; cbn [rle0_rows]; [by apply rret_safe |].
  apply (rbind_safe _ _ _ _ read_u16_safe); intros len _.
  apply (rbind_safe _ _ _ _ (rle0_row_safe w h y Hw Hh _ _ px Hpx)); intros px' Hpx'.
  by apply IH.
Qed.

Lemma scan_rows_safe (w h : Z) (fh0 : FHeader) (rows : nat) :
  1 <= w -> 1 <= h ->
  forall y px, buf_ok w h px -> reader_safe (buf_ok w h) (scan_rows w h fh0 rows y px).
Proof.
  intros Hw Hh. induction rows as [| k IH]; intros y px Hpx; cbn [scan_rows]; [by apply rret_safe |].
  apply (rbind_safe _ _ _ _ read_u16_safe); intros len _.
  apply (rbind_safe _ _ _ _ (scan_row_safe w h y Hw Hh _ _ px Hpx)); intros px' Hpx'.
  by apply IH.
Qed.

Lemma raw_rows_safe (w h : Z) (fh0 : FHeader) (rows : nat) :
  1 <= w -> 1 <= h ->
  forall y px, buf_ok w h px -> reader_safe (buf_ok w h) (raw_rows w h fh0 rows y px).
Proof.
  intros Hw Hh. induction rows as [| k IH]; intros y px Hpx; cbn [raw_rows]; [by apply rret_safe |].
  apply (rbind_safe _ _ _ _ (read_exact_safe _)); intros row [_ Hrow].
  apply (rbind_safe _ _ _ _ (rlift_safe _ _ (raw_row_safe w h y row Hw Hh Hrow _ px Hpx))).
  intros px' Hpx'. by apply IH.
Qed.

Lemma decode_frame_safe (bytes : list Z) (w h : Z) (fh0 : FHeader) :
  Forall u8_ok bytes -> 1 <= w < 2 ^ 16 -> 1 <= h < 2 ^ 16 ->
  result_safe (frame_wf w h) (decode_frame bytes w h fh0).
Proof.
  intros Hb Hw Hh. unfold decode_frame.
  assert (Hu : u32_wrap (w * h) = w * h) by (unfold u32_wrap; apply Z.mod_small; nia).
  rewrite Hu.
  assert (Hpx : buf_ok w h (replicate (Z.to_nat (w * h)) 0)).
  { split; [by rewrite length_replicate |]. apply Forall_replicate. unfold u8_ok; lia. }
  destruct ((data_off fh0 =? 0) || (fw fh0 =? 0) || (fh fh0 =? 0)); [exact Hpx |].
  destruct (length bytes <=? Z.to_nat (data_off fh0))%nat; [done |].
  set (run := if is_rle0 (flags fh0) then _ else _).
  assert (Hrun : reader_safe (buf_ok w h) run).
  { unfold run. destruct (is_rle0 (flags fh0)); [| destruct (is_scan (flags fh0))].
    - apply rle0_rows_safe; [lia | lia | done].
    - apply scan_rows_safe; [lia | lia | done].
    - apply raw_rows_safe; [lia | lia | done]. }
  specialize (Hrun (drop (Z.to_nat (data_off fh0)) bytes) (Forall_drop _ _ _ Hb)).
  destruct (run _) as [[px' src'] | e]; [| done].
  destruct Hrun as [[Hl Hf] _]. split; done.
Qed.

Lemma decode_frames_safe (bytes : list Z) (w h : Z) (fhs : list FHeader) :
  Forall u8_ok bytes -> 1 <= w < 2 ^ 16 -> 1 <= h < 2 ^ 16 ->
  result_safe (fun frs => length frs = length fhs /\ Forall (frame_wf w h) frs)
    (decode_frames bytes w h fhs).
Proof.
  intros Hb Hw Hh. induction fhs as [| fh0 rest IH]; cbn [decode_frames]; [done |].
  pose proof (decode_frame_safe bytes w h fh0 Hb Hw Hh) as Hf.
  destruct (decode_frame bytes w h fh0) as [fr | e]; [| done].
  destruct (decode_frames bytes w h rest) as [frs | e]; [| done].
  destruct IH as [Hl Hall]. split; [simpl; lia | by constructor].
Qed.

Lemma load_result_ok (bytes : list Z) :
  Forall u8_ok bytes ->
  match load bytes with
  | Ok s => wf s /\ width s = header_field bytes 1 /\ height s = header_field bytes 2 /\
            length (frames s) = Z.to_nat (header_field bytes 3) /\
            1 <= width s < 2 ^ 16 /\ 1 <= height s < 2 ^ 16 /\ frames s <> []
  | Err e => e <> Panic
  end.
Proof.
  intros Hb. unfold load.
  destruct (length bytes <? 8)%nat eqn:Hl; [done |]. apply Nat.ltb_ge in Hl.
  destruct bytes as [| b0 [| b1 [| b2 [| b3 [| b4 [| b5 [| b6 [| b7 rest]]]]]]]];
    try (simpl in Hl; lia).
  repeat match goal with H : Forall _ (_ :: _) |- _ => inversion H as [| ? ? ? ?]; subst; clear H end.
  unfold load_body, read_u16, rbind, read_exact, rret, rfail, header_field. simpl.
  destruct (negb _); [done |]. simpl.
  destruct (_ || _ || _) eqn:Hsz; [done |].
  apply orb_false_iff in Hsz as [Hsz Hn]. apply orb_false_iff in Hsz as [Hw Hh].
  apply Z.eqb_neq in Hw, Hh, Hn.
  rewrite drop_0.
  match goal with |- context [read_fheaders ?n rest] =>
    pose proof (read_fheaders_safe n rest ltac:(assumption)) as Hf;
    destruct (read_fheaders n rest) as [[fhs src'] | e]; [| done] end.
  destruct Hf as [Hlen _].
  match goal with |- context [decode_frames ?bs ?w ?h fhs] =>
    assert (Hd : result_safe _ (decode_frames bs w h fhs))
      by (apply decode_frames_safe; [repeat (constructor; [assumption |]); assumption | unfold u8_ok in *; lia | unfold u8_ok in *; lia]);
    destruct (decode_frames bs w h fhs) as [frs | e] end.
  - unfold rlift. cbn [width height frames].
    destruct Hd as [Hl' Hall].
    unfold u8_ok in *. split; [| split; [done | split; [done | split; [lia | split; [lia | split; [lia |]]]]]].
    { split; [unfold u32_fields; simpl; lia |]. split; [simpl; nia | done]. }
    intros He. rewrite He in Hl'. simpl in Hl'. lia.
  - unfold rlift. exact Hd.
Qed.

(** X17: [SHP::load] never panics on any byte input: it either returns an
    error or a well-formed sprite whose width, height and frame count are the
    header fields, with width and height between 1 and 65535 and at least one
    frame. *)
Theorem load_safe (bytes : list Z) :
  Forall u8_ok bytes ->
  match load bytes with
  | Ok s => wf s /\ width s = header_field bytes 1 /\ height s = header_field bytes 2 /\
            length (frames s) = Z.to_nat (header_field bytes 3) /\
            1 <= width s < 2 ^ 16 /\ 1 <= height s < 2 ^ 16 /\ frames s <> []
  | Err e => e <> Panic
  end.
Proof. apply load_result_ok. Qed.

(** X18: Rendering any frame index of a sprite that [SHP::load] returned, with
    a 256-entry palette of valid colours, never panics. *)
Theorem load_render_total {B} (sc : B -> Z -> Z) (bytes : list Z) (s : SHP) (frame : nat)
    (pal : Palette) (br : B) :
  Forall u8_ok bytes -> load bytes = Ok s -> palette_ok pal ->
  exists img, egui_texture_with_brightness sc s frame pal br = Some img.
Proof.
  intros Hb Hl Hpal. pose proof (load_result_ok bytes Hb) as H. rewrite Hl in H.
  destruct H as (Hwf & _ & _ & _ & Hw & Hh & Hne).
  assert (Hlen0 : (0 < length (frames s))%nat) by (destruct (frames s); [done | simpl; lia]).
  destruct (decide (width s * height s <= 64000000)) as [Hin | Hout].
  - destruct (rendered_frame s frame) as [fr |] eqn:Hsel.
    + destruct (render_in_range sc s frame pal br fr Hwf Hpal Hsel) as (rgba & Hr & _); [nia |].
      eauto.
    + exfalso. unfold rendered_frame in Hsel.
      destruct (frame <? length (frames s))%nat eqn:E.
      * apply Nat.ltb_lt in E. apply lookup_ge_None_1 in Hsel. lia.
      * apply lookup_ge_None_1 in Hsel. lia.
  - unfold egui_texture_with_brightness.
    replace ((width s * height s =? 0) || (64000000 <? width s * height s)) with true
      by (symmetry; apply orb_true_iff; right; apply Z.ltb_lt; lia).
    eauto.
Qed.

Lemma load_safe_witness :
  Forall u8_ok [0; 0; 1; 0; 1; 0; 1; 0; 0; 0; 0; 0; 1; 0; 1; 0; 0; 0; 0; 0; 0; 0; 0; 0; 0; 0; 0; 0; 32; 0; 0; 0; 9] /\
  match load [0; 0; 1; 0; 1; 0; 1; 0; 0; 0; 0; 0; 1; 0; 1; 0; 0; 0; 0; 0; 0; 0; 0; 0; 0; 0; 0; 0; 32; 0; 0; 0; 9] with
  | Ok s => wf s /\ width s = header_field [0; 0; 1; 0; 1; 0; 1; 0; 0; 0; 0; 0; 1; 0; 1; 0; 0; 0; 0; 0; 0; 0; 0; 0; 0; 0; 0; 0; 32; 0; 0; 0; 9] 1 /\
            height s = header_field [0; 0; 1; 0; 1; 0; 1; 0; 0; 0; 0; 0; 1; 0; 1; 0; 0; 0; 0; 0; 0; 0; 0; 0; 0; 0; 0; 0; 32; 0; 0; 0; 9] 2 /\
            length (frames s) = Z.to_nat (header_field [0; 0; 1; 0; 1; 0; 1; 0; 0; 0; 0; 0; 1; 0; 1; 0; 0; 0; 0; 0; 0; 0; 0; 0; 0; 0; 0; 0; 32; 0; 0; 0; 9] 3) /\
            1 <= width s < 2 ^ 16 /\ 1 <= height s < 2 ^ 16 /\ frames s <> []
  | Err e => e <> Panic
  end.
Proof.
  assert (Hb : Forall u8_ok [0; 0; 1; 0; 1; 0; 1; 0; 0; 0; 0; 0; 1; 0; 1; 0; 0; 0; 0; 0; 0; 0; 0; 0; 0; 0; 0; 0; 32; 0; 0; 0; 9]) by (repeat constructor; unfold u8_ok; lia).
  split; [exact Hb | exact (load_safe _ Hb)].
Defined.

Lemma load_render_total_witness :
  Forall u8_ok [0; 0; 1; 0; 1; 0; 1; 0; 0; 0; 0; 0; 1; 0; 1; 0; 0; 0; 0; 0; 0; 0; 0; 0; 0; 0; 0; 0; 32; 0; 0; 0; 9] /\ load [0; 0; 1; 0; 1; 0; 1; 0; 0; 0; 0; 0; 1; 0; 1; 0; 0; 0; 0; 0; 0; 0; 0; 0; 0; 0; 0; 0; 32; 0; 0; 0; 9] = Ok (mkSHP 1 1 [mkFrame [9]]) /\ palette_ok default_grayscale /\
  exists img, egui_texture_with_brightness (fun (_ : Z) c => c) (mkSHP 1 1 [mkFrame [9]]) 3
    default_grayscale 1 = Some img.
Proof.
  assert (Hb : Forall u8_ok [0; 0; 1; 0; 1; 0; 1; 0; 0; 0; 0; 0; 1; 0; 1; 0; 0; 0; 0; 0; 0; 0; 0; 0; 0; 0; 0; 0; 32; 0; 0; 0; 9]) by (repeat constructor; unfold u8_ok; lia).
  assert (Hl : load [0; 0; 1; 0; 1; 0; 1; 0; 0; 0; 0; 0; 1; 0; 1; 0; 0; 0; 0; 0; 0; 0; 0; 0; 0; 0; 0; 0; 32; 0; 0; 0; 9] = Ok (mkSHP 1 1 [mkFrame [9]])) by reflexivity.
  pose proof default_grayscale_ok as Hp.
  split; [exact Hb |]. split; [exact Hl |]. split; [exact Hp |].
  exact (load_render_total (fun (_ : Z) c => c) _ _ 3 default_grayscale 1 Hb Hl Hp).
Defined.

Lemma data_section_length (L : nat) (bl : list (list Z)) :
  Forall (fun blk => length blk = L) bl ->
  forall c, 0 < c ->
  length (flat_map (fun ob : Z * list Z => if ob.1 =? 0 then [] else ob.2) (zip (data_offsets c bl) bl)) =
    (L * length (List.filter (fun blk => negb (forallb (fun v => (v =? 0)%Z) blk)) bl))%nat.
Proof.
  induction 1 as [| blk bl Hblk _ IH]; intros c Hc; [simpl; lia |].
  cbn [data_offsets]. destruct (forallb (fun v => (v =? 0)%Z) blk) eqn:Hz; cbn [zip flat_map fst snd List.filter negb].
  - rewrite Z.eqb_refl. cbn [app]. rewrite IH by done. cbn [List.filter]. by rewrite Hz.
  - rewrite (proj2 (Z.eqb_neq c 0)) by lia. rewrite length_app, IH.
    + cbn [List.filter]. rewrite Hz. simpl. lia.
    + assert (0 <= u32_wrap (Z.of_nat (length blk))) by (unfold u32_wrap; apply Z.mod_pos_bound; lia).
      lia.
Qed.

Lemma filter_map_pixels (frs : list Frame) :
  length (List.filter (fun blk => negb (forallb (fun v => (v =? 0)%Z) blk)) (map pixels frs)) =
  length (List.filter (fun fr => negb (forallb (fun v => (v =? 0)%Z) (pixels fr))) frs).
Proof.
  induction frs as [| fr frs IH]; [done |]. simpl.
  destruct (negb (forallb (fun v => (v =? 0)%Z) (pixels fr))); simpl; lia.
Qed.

(** X19: [SHP::save] on a well-formed sprite with at least one frame and a
    [u32] header area succeeds, and its output has 8 + 24 bytes per frame plus
    [width * height] bytes for each frame that is not entirely zero. *)
Theorem save_length (s : SHP) :
  wf s -> frames s <> [] -> 8 + 24 * Z.of_nat (length (frames s)) < 2 ^ 32 ->
  exists out, save s = Ok out /\
    length out = (8 + 24 * length (frames s) +
      Z.to_nat (width s * height s)%Z *
      length (List.filter (fun fr => negb (forallb (fun v => (v =? 0)%Z) (pixels fr))) (frames s)))%nat.
Proof.
  intros (Hu & Hwh & Hf) Hne Hn. unfold u32_fields in Hu.
  unfold save. destruct (frames s) as [| fr0 frs0] eqn:Hfr; [done |].
  rewrite <- Hfr in *. cbv zeta.
  rewrite mapM_copy_block; [| lia | lia | lia |].
  2: { eapply Forall_impl; [exact Hf |]. by intros fr [Hl _]. }
  eexists. split; [reflexivity |].
  rewrite !length_app, length_frame_header_bytes, length_data_offsets, length_map.
  rewrite (data_section_length (Z.to_nat (width s * height s)%Z)).
  - rewrite filter_map_pixels. simpl. lia.
  - apply Forall_fmap. eapply Forall_impl; [exact Hf |]. by intros fr [Hl _].
  - unfold u32_wrap. rewrite Z.mod_small; lia.
Qed.

Lemma save_length_witness :
  exists out, save demo_sprite = Ok out /\
    length out = (8 + 24 * length (frames demo_sprite) +
      Z.to_nat (width demo_sprite * height demo_sprite)%Z *
      length (List.filter (fun fr => negb (forallb (fun v => (v =? 0)%Z) (pixels fr))) (frames demo_sprite)))%nat.
Proof. apply save_length; [apply demo_sprite_wf | discriminate | simpl; lia]. Defined.

Lemma scan_row_unfold (w h y rem x : Z) (px src : list Z) :
  scan_row w h y rem x px src =
    if rem =? 0 then Ok (px, src)
    else match src with
         | [] => Err UnexpectedEof
         | v :: src1 =>
           match put_pixel w h x y v px with
           | Ok px' => scan_row w h y (rem - 1) (x + 1) px' src1
           | Err e => Err e
           end
         end.
Proof. by destruct src. Qed.

(** X20: Decoding a scanline row whose length field covers exactly the bytes
    [l] gives the same pixels as decoding [l] as an uncompressed row, and
    leaves the bytes after [l] unread. *)
Theorem scan_row_raw_row (w h y x : Z) (px l rest : list Z) :
  scan_row w h y (Z.of_nat (length l)) x px (l ++ rest) =
    match raw_row w h y x l px with Ok px' => Ok (px', rest) | Err e => Err e end.
Proof.
  revert x px. induction l as [| v l IH]; intros x px.
  - rewrite scan_row_unfold. reflexivity.
  - cbn [app length raw_row]. rewrite scan_row_unfold.
    rewrite (proj2 (Z.eqb_neq _ 0)) by lia.
    destruct (put_pixel w h x y v px) as [px' | e]; [| done].
    replace (Z.of_nat (S (length l)) - 1) with (Z.of_nat (length l)) by lia.
    apply IH.
Qed.

Lemma line_loop_spec (x1 y1 dx D sx sy c : Z) (fi : nat) :
  0 <= dx < 2 ^ 29 -> 0 <= D < 2 ^ 29 -> (sx = 1 \/ sx = -1) -> (sy = 1 \/ sy = -1) ->
  -2 ^ 30 <= x1 <= 2 ^ 30 -> -2 ^ 30 <= x1 - sx * dx <= 2 ^ 30 ->
  -2 ^ 30 <= y1 <= 2 ^ 30 -> -2 ^ 30 <= y1 - sy * D <= 2 ^ 30 -> u8_ok c ->
  forall fuel s p q err,
  wf s -> (fi < length (frames s))%nat -> 0 <= p <= dx -> 0 <= q <= D ->
  err = dx - D + p * D - q * dx -> -2 * D <= err <= 2 * dx -> p + q < Z.of_nat fuel ->
  exists s', line_loop fuel s fi (x1 - sx * p) (y1 - sy * q) x1 y1 dx (- D) sx sy err c = Done s' /\
    wf s' /\ width s' = width s /\ height s' = height s /\ length (frames s') = length (frames s) /\
    (0 <= x1 < width s -> 0 <= y1 < height s -> frame_get_pixel s' fi x1 y1 = Some c) /\
    (0 <= x1 - sx * p < width s -> 0 <= y1 - sy * q < height s ->
       frame_get_pixel s' fi (x1 - sx * p) (y1 - sy * q) = Some c) /\
    (forall fi' X Y, frame_get_pixel s' fi' X Y = frame_get_pixel s fi' X Y \/
       (fi' = fi /\ Z.min (x1 - sx * p) x1 <= X <= Z.max (x1 - sx * p) x1 /\
        Z.min (y1 - sy * q) y1 <= Y <= Z.max (y1 - sy * q) y1 /\ frame_get_pixel s' fi' X Y = Some c)) /\
    (D = 0 -> forall X, Z.min (x1 - sx * p) x1 <= X <= Z.max (x1 - sx * p) x1 ->
       0 <= X < width s -> 0 <= y1 < height s -> frame_get_pixel s' fi X y1 = Some c) /\
    (dx = 0 -> forall Y, Z.min (y1 - sy * q) y1 <= Y <= Z.max (y1 - sy * q) y1 ->
       0 <= x1 < width s -> 0 <= Y < height s -> frame_get_pixel s' fi x1 Y = Some c).
Proof.
  intros Hdx HD Hsx Hsy Hx1 Hx0 Hy1 Hy0 Hc fuel.
  induction fuel as [| fuel IH]; intros s p q err Hs Hfi Hp Hq Herr Hb Hfuel; [lia |].
  cbn [line_loop].
  destruct (frame_set_pixel_law s fi (x1 - sx * p) (y1 - sy * q) c Hs Hfi Hc) as (s1 & Hset & Hs1 & Hget1).
  destruct (frame_set_pixel_shape _ _ _ _ _ _ Hset) as (Hw1 & Hh1 & Hl1).
  rewrite Hset.
  assert (Hcur : 0 <= x1 - sx * p < width s -> 0 <= y1 - sy * q < height s ->
                 frame_get_pixel s1 fi (x1 - sx * p) (y1 - sy * q) = Some c).
  { intros. rewrite Hget1. by rewrite decide_True. }
  assert (Hd1 : forall fi' X Y, frame_get_pixel s1 fi' X Y = frame_get_pixel s fi' X Y \/
       (fi' = fi /\ X = x1 - sx * p /\ Y = y1 - sy * q /\ frame_get_pixel s1 fi' X Y = Some c)).
  { intros fi' X Y. rewrite Hget1. destruct (decide _) as [(? & ? & ? & _) | _]; [right | left]; auto. }
  destruct ((x1 - sx * p =? x1) && (y1 - sy * q =? y1)) eqn:Hend.
  - (* the last point *)
    apply andb_true_iff in Hend as [Ex Ey]. apply Z.eqb_eq in Ex, Ey.
    assert (p = 0) by (destruct Hsx; subst; lia). assert (q = 0) by (destruct Hsy; subst; lia). subst p q.
    rewrite !Z.mul_0_r, !Z.sub_0_r in *.
    exists s1. do 5 (split; [done |]). split; [| split; [| split; [| split]]].
    + exact Hcur.
    + exact Hcur.
    + intros fi' X Y. destruct (Hd1 fi' X Y) as [? | (? & -> & -> & ?)]; [by left | right].
      split; [done | split; [lia | split; [lia | done]]].
    + intros _ X HX ? ?. replace X with x1 by lia. apply Hcur; lia.
    + intros _ Y HY ? ?. replace Y with y1 by lia. apply Hcur; lia.
  - assert (Hnz : p <> 0 \/ q <> 0).
    { apply andb_false_iff in Hend as [E | E]; apply Z.eqb_neq in E; [left | right]; intros ->; lia. }
    assert (Hk : forall p' q' err', (p' = p \/ p' = p - 1) -> (q' = q \/ q' = q - 1) ->
      0 <= p' -> 0 <= q' -> err' = dx - D + p' * D - q' * dx -> -2 * D <= err' <= 2 * dx ->
      p' + q' < p + q ->
      exists s', line_loop fuel s1 fi (x1 - sx * p') (y1 - sy * q') x1 y1 dx (- D) sx sy err' c = Done s' /\
        wf s' /\ width s' = width s /\ height s' = height s /\ length (frames s') = length (frames s) /\
        (0 <= x1 < width s -> 0 <= y1 < height s -> frame_get_pixel s' fi x1 y1 = Some c) /\
        (0 <= x1 - sx * p < width s -> 0 <= y1 - sy * q < height s ->
           frame_get_pixel s' fi (x1 - sx * p) (y1 - sy * q) = Some c) /\
        (forall fi' X Y, frame_get_pixel s' fi' X Y = frame_get_pixel s fi' X Y \/
           (fi' = fi /\ Z.min (x1 - sx * p) x1 <= X <= Z.max (x1 - sx * p) x1 /\
            Z.min (y1 - sy * q) y1 <= Y <= Z.max (y1 - sy * q) y1 /\ frame_get_pixel s' fi' X Y = Some c)) /\
        (D = 0 -> forall X, Z.min (x1 - sx * p) x1 <= X <= Z.max (x1 - sx * p) x1 ->
           0 <= X < width s -> 0 <= y1 < height s -> frame_get_pixel s' fi X y1 = Some c) /\
        (dx = 0 -> forall Y, Z.min (y1 - sy * q) y1 <= Y <= Z.max (y1 - sy * q) y1 ->
           0 <= x1 < width s -> 0 <= Y < height s -> frame_get_pixel s' fi x1 Y = Some c)).
    { intros p' q' err' Hp' Hq' Hp0 Hq0 Herr' Hb' Hlt.
      destruct (IH s1 p' q' err' Hs1 ltac:(lia) ltac:(lia) ltac:(lia) Herr' Hb' ltac:(lia))
        as (s' & Hrun & Hs' & Hw' & Hh' & Hl' & Hend' & _ & Hd' & Hax' & Hay').
      exists s'. split; [done |]. split; [done |]. split; [lia |]. split; [lia |]. split; [lia |].
      split; [| split; [| split; [| split]]].
      - intros. apply Hend'; lia.
      - intros Hx Hy. destruct (Hd' fi (x1 - sx * p) (y1 - sy * q)) as [-> | (_ & _ & _ & ?)]; [| done].
        by apply Hcur.
      - intros fi' X Y. destruct (Hd' fi' X Y) as [-> | (-> & HX & HY & Hv)].
        + destruct (Hd1 fi' X Y) as [? | (? & -> & -> & ?)]; [by left | right].
          split; [done | split; [lia | split; [lia | done]]].
        + right. split; [done |]. split; [| split; [| done]].
          * destruct Hsx as [-> | ->]; destruct Hp' as [-> | ->]; lia.
          * destruct Hsy as [-> | ->]; destruct Hq' as [-> | ->]; lia.
      - intros HD0 X HX HXw HYh. assert (q = 0) by lia. assert (q' = 0) by lia. subst q q'.
        rewrite Z.mul_0_r, Z.sub_0_r in *.
        destruct (decide (X = x1 - sx * p)) as [-> | Hne].
        + destruct (Hd' fi (x1 - sx * p) y1) as [-> | (_ & _ & _ & ?)]; [| done]. by apply Hcur.
        + apply Hax'; [done | | lia | lia].
          destruct Hsx as [-> | ->]; destruct Hp' as [-> | ->]; lia.
      - intros Hdx0 Y HY HXw HYh. assert (p = 0) by lia. assert (p' = 0) by lia. subst p p'.
        rewrite Z.mul_0_r, Z.sub_0_r in *.
        destruct (decide (Y = y1 - sy * q)) as [-> | Hne].
        + destruct (Hd' fi x1 (y1 - sy * q)) as [-> | (_ & _ & _ & ?)]; [| done]. by apply Hcur.
        + apply Hay'; [done | | lia | lia].
          destruct Hsy as [-> | ->]; destruct Hq' as [-> | ->]; lia. }
    assert (He2 : i32_wrap (2 * err) = 2 * err) by (apply i32_wrap_id; lia). rewrite He2.
    destruct (Z.leb_spec (- D) (2 * err)) as [Hxs | Hxs]; destruct (Z.leb_spec (2 * err) dx) as [Hys | Hys];
      cbv beta iota.
    + (* diagonal step *)
      assert (p <> 0) by (intros ->; assert (q >= 1) by lia; nia).
      assert (q <> 0) by (intros ->; assert (p >= 1) by lia; nia).
      rewrite (i32_wrap_id (err + - D)), (i32_wrap_id (x1 - sx * p + sx)) by (destruct Hsx; subst; lia).
      rewrite (i32_wrap_id (err + - D + dx)), (i32_wrap_id (y1 - sy * q + sy)) by (destruct Hsy; subst; lia).
      replace (x1 - sx * p + sx) with (x1 - sx * (p - 1)) by ring.
      replace (y1 - sy * q + sy) with (y1 - sy * (q - 1)) by ring.
      apply Hk; first [lia | nia].
    + (* step in x only *)
      assert (p <> 0) by (intros ->; assert (q >= 1) by lia; nia).
      rewrite (i32_wrap_id (err + - D)), (i32_wrap_id (x1 - sx * p + sx)) by (destruct Hsx; subst; lia).
      replace (x1 - sx * p + sx) with (x1 - sx * (p - 1)) by ring.
      apply Hk; first [lia | nia].
    + (* step in y only *)
      assert (q <> 0) by (intros ->; assert (p >= 1) by lia; nia).
      rewrite (i32_wrap_id (err + dx)), (i32_wrap_id (y1 - sy * q + sy)) by (destruct Hsy; subst; lia).
      replace (y1 - sy * q + sy) with (y1 - sy * (q - 1)) by ring.
      apply Hk; first [lia | nia].
    + lia.
Qed.

Lemma draw_line_law (s : SHP) (fi : nat) (x0 y0 x1 y1 c : Z) :
  wf s -> (fi < length (frames s))%nat -> u8_ok c ->
  -2 ^ 28 <= x0 < 2 ^ 28 -> -2 ^ 28 <= y0 < 2 ^ 28 ->
  -2 ^ 28 <= x1 < 2 ^ 28 -> -2 ^ 28 <= y1 < 2 ^ 28 ->
  exists s', draw_line_on_frame s fi x0 y0 x1 y1 c = Done s' /\ wf s' /\
    width s' = width s /\ height s' = height s /\
    (0 <= x0 < width s -> 0 <= y0 < height s -> frame_get_pixel s' fi x0 y0 = Some c) /\
    (0 <= x1 < width s -> 0 <= y1 < height s -> frame_get_pixel s' fi x1 y1 = Some c) /\
    (forall fi' X Y, frame_get_pixel s' fi' X Y = frame_get_pixel s fi' X Y \/
       (fi' = fi /\ Z.min x0 x1 <= X <= Z.max x0 x1 /\ Z.min y0 y1 <= Y <= Z.max y0 y1 /\
        frame_get_pixel s' fi' X Y = Some c)) /\
    length (frames s') = length (frames s) /\
    (y0 = y1 -> forall X, Z.min x0 x1 <= X <= Z.max x0 x1 -> 0 <= X < width s -> 0 <= y1 < height s ->
       frame_get_pixel s' fi X y1 = Some c) /\
    (x0 = x1 -> forall Y, Z.min y0 y1 <= Y <= Z.max y0 y1 -> 0 <= x1 < width s -> 0 <= Y < height s ->
       frame_get_pixel s' fi x1 Y = Some c).
Proof.
  intros Hs Hfi Hc Hx0 Hy0 Hx1 Hy1. unfold draw_line_on_frame.
  rewrite (i32_wrap_id (x1 - x0)), (i32_wrap_id (Z.abs (x1 - x0))) by lia.
  rewrite (i32_wrap_id (y1 - y0)), (i32_wrap_id (Z.abs (y1 - y0))), (i32_wrap_id (- Z.abs (y1 - y0))) by lia.
  rewrite (i32_wrap_id (Z.abs (x1 - x0) + - Z.abs (y1 - y0))) by lia.
  set (dx := Z.abs (x1 - x0)). set (D := Z.abs (y1 - y0)).
  set (sx := if x0 <? x1 then 1 else -1). set (sy := if y0 <? y1 then 1 else -1).
  assert (Hsx : sx = 1 \/ sx = -1) by (unfold sx; destruct (x0 <? x1); auto).
  assert (Hsy : sy = 1 \/ sy = -1) by (unfold sy; destruct (y0 <? y1); auto).
  assert (Ex : x0 = x1 - sx * dx) by (unfold sx, dx; destruct (Z.ltb_spec x0 x1); lia).
  assert (Ey : y0 = y1 - sy * D) by (unfold sy, D; destruct (Z.ltb_spec y0 y1); lia).
  destruct (line_loop_spec x1 y1 dx D sx sy c fi) with
    (fuel := S (Z.to_nat (dx - - D))) (s := s) (p := dx) (q := D) (err := dx + - D)
    as (s' & Hrun & Hs' & Hw & Hh & Hl & Hend & Hstart & Hd & Hax & Hay);
    try (unfold dx, D in *; lia); try done.
  rewrite <- Ex, <- Ey in Hrun, Hstart, Hd. rewrite <- Ex in Hax. rewrite <- Ey in Hay.
  exists s'. do 7 (split; [done |]). split; [done |]. split.
  - intros Ey1 X HX. apply Hax. unfold D. lia. done.
  - intros Ex1 Y HY. apply Hay. unfold dx. lia. done.
Qed.

(** X13: For coordinates within [2^28] of the origin, [draw_line_on_frame] on
    a well-formed sprite and an existing frame terminates, keeps the sprite
    well-formed and its size, paints both end points when they are on the
    canvas, and changes no pixel outside the bounding box of the end points,
    where it only writes the colour. *)
Theorem draw_line_on_frame_spec (s : SHP) (fi : nat) (x0 y0 x1 y1 c : Z) :
  wf s -> (fi < length (frames s))%nat -> u8_ok c ->
  -2 ^ 28 <= x0 < 2 ^ 28 -> -2 ^ 28 <= y0 < 2 ^ 28 ->
  -2 ^ 28 <= x1 < 2 ^ 28 -> -2 ^ 28 <= y1 < 2 ^ 28 ->
  exists s', draw_line_on_frame s fi x0 y0 x1 y1 c = Done s' /\ wf s' /\
    width s' = width s /\ height s' = height s /\
    (0 <= x0 < width s -> 0 <= y0 < height s -> frame_get_pixel s' fi x0 y0 = Some c) /\
    (0 <= x1 < width s -> 0 <= y1 < height s -> frame_get_pixel s' fi x1 y1 = Some c) /\
    (forall fi' X Y, frame_get_pixel s' fi' X Y = frame_get_pixel s fi' X Y \/
       (fi' = fi /\ Z.min x0 x1 <= X <= Z.max x0 x1 /\ Z.min y0 y1 <= Y <= Z.max y0 y1 /\
        frame_get_pixel s' fi' X Y = Some c)).
Proof.
  intros Hs Hfi Hc Hx0 Hy0 Hx1 Hy1.
  destruct (draw_line_law s fi x0 y0 x1 y1 c Hs Hfi Hc Hx0 Hy0 Hx1 Hy1)
    as (s' & Hrun & Hs' & Hw & Hh & Hst & Hend & Hd & _).
  exists s'. do 6 (split; [done |]). exact Hd.
Qed.

Lemma frame_get_pixel_off_canvas (s : SHP) (fi : nat) (x y : Z) :
  ~ (0 <= x < width s /\ 0 <= y < height s) -> frame_get_pixel s fi x y = Some 0.
Proof.
  intros H. unfold frame_get_pixel.
  destruct (Z.ltb_spec x 0), (Z.ltb_spec y 0); cbn [orb]; try done.
  destruct (Nat.leb _ _); cbn [orb]; [done |].
  destruct (Z.leb_spec (width s) x), (Z.leb_spec (height s) y); cbn [orb]; try done. lia.
Qed.

Lemma draw_axis_line_law (s : SHP) (fi : nat) (x0 y0 x1 y1 c : Z) :
  wf s -> (fi < length (frames s))%nat -> u8_ok c -> (x0 = x1 \/ y0 = y1) ->
  -2 ^ 28 <= x0 < 2 ^ 28 -> -2 ^ 28 <= y0 < 2 ^ 28 ->
  -2 ^ 28 <= x1 < 2 ^ 28 -> -2 ^ 28 <= y1 < 2 ^ 28 ->
  exists s', draw_line_on_frame s fi x0 y0 x1 y1 c = Done s' /\ wf s' /\
    width s' = width s /\ height s' = height s /\ length (frames s') = length (frames s) /\
    forall fi' X Y, frame_get_pixel s' fi' X Y =
      if decide (fi' = fi /\ Z.min x0 x1 <= X <= Z.max x0 x1 /\ Z.min y0 y1 <= Y <= Z.max y0 y1 /\
                 0 <= X < width s /\ 0 <= Y < height s)
      then Some c else frame_get_pixel s fi' X Y.
Proof.
  intros Hs Hfi Hc Hax Hx0 Hy0 Hx1 Hy1.
  destruct (draw_line_law s fi x0 y0 x1 y1 c Hs Hfi Hc Hx0 Hy0 Hx1 Hy1)
    as (s' & Hrun & Hs' & Hw & Hh & _ & _ & Hd & Hl & Hhor & Hver).
  exists s'. do 5 (split; [done |]).
  intros fi' X Y. destruct (decide _) as [(-> & HX & HY & Hin1 & Hin2) | Hn].
  - destruct Hax as [<- | <-].
    + replace X with x0 by lia. apply Hver; [done | lia | lia | lia].
    + replace Y with y0 by lia. apply Hhor; [done | lia | lia | lia].
  - destruct (Hd fi' X Y) as [? | (-> & HX & HY & Hv)]; [done |].
    rewrite (frame_get_pixel_off_canvas s'), (frame_get_pixel_off_canvas s); [done | |].
    + intros ?. apply Hn. lia.
    + rewrite Hw, Hh. intros ?. apply Hn. lia.
Qed.

(** X14: For coordinates within [2^28] of the origin, [draw_rect_on_frame] on
    a well-formed sprite and an existing frame terminates, keeps the sprite
    well-formed and its size, and sets exactly the canvas pixels of that frame
    on the border of the rectangle spanned by the two corners to the colour. *)
Theorem draw_rect_on_frame_spec (s : SHP) (fi : nat) (x0 y0 x1 y1 c : Z) :
  wf s -> (fi < length (frames s))%nat -> u8_ok c ->
  -2 ^ 28 <= x0 < 2 ^ 28 -> -2 ^ 28 <= y0 < 2 ^ 28 ->
  -2 ^ 28 <= x1 < 2 ^ 28 -> -2 ^ 28 <= y1 < 2 ^ 28 ->
  exists s', draw_rect_on_frame s fi x0 y0 x1 y1 c = Done s' /\ wf s' /\
    width s' = width s /\ height s' = height s /\
    forall fi' X Y, frame_get_pixel s' fi' X Y =
      if decide (fi' = fi /\ 0 <= X < width s /\ 0 <= Y < height s /\
                 ((Z.min x0 x1 <= X <= Z.max x0 x1 /\ (Y = Z.min y0 y1 \/ Y = Z.max y0 y1)) \/
                  ((X = Z.min x0 x1 \/ X = Z.max x0 x1) /\ Z.min y0 y1 <= Y <= Z.max y0 y1)))
      then Some c else frame_get_pixel s fi' X Y.
Proof.
  intros Hs Hfi Hc Hx0 Hy0 Hx1 Hy1. unfold draw_rect_on_frame.
  assert (Hlr : exists lx rx, (if x0 <=? x1 then (x0, x1) else (x1, x0)) = (lx, rx) /\
                 lx = Z.min x0 x1 /\ rx = Z.max x0 x1)
    by (destruct (Z.leb_spec x0 x1); eexists _, _; (split; [reflexivity | lia])).
  assert (Htb : exists ty by_, (if y0 <=? y1 then (y0, y1) else (y1, y0)) = (ty, by_) /\
                 ty = Z.min y0 y1 /\ by_ = Z.max y0 y1)
    by (destruct (Z.leb_spec y0 y1); eexists _, _; (split; [reflexivity | lia])).
  destruct Hlr as (lx & rx & -> & Elx & Erx). destruct Htb as (ty & by_ & -> & Ety & Eby).
  destruct (draw_axis_line_law s fi lx ty rx ty c) as (s1 & R1 & W1 & w1 & h1 & l1 & G1);
    try done; try lia.
  destruct (draw_axis_line_law s1 fi lx by_ rx by_ c) as (s2 & R2 & W2 & w2 & h2 & l2 & G2);
    try done; try lia.
  destruct (draw_axis_line_law s2 fi lx ty lx by_ c) as (s3 & R3 & W3 & w3 & h3 & l3 & G3);
    try done; try lia.
  destruct (draw_axis_line_law s3 fi rx ty rx by_ c) as (s4 & R4 & W4 & w4 & h4 & l4 & G4);
    try done; try lia.
  cbn [outcome_bind]. rewrite R1. cbn [outcome_bind]. rewrite R2. cbn [outcome_bind]. rewrite R3.
  cbn [outcome_bind]. rewrite R4.
  exists s4. split; [done |]. split; [done |]. split; [lia |]. split; [lia |].
  intros fi' X Y. rewrite G4, G3, G2, G1. rewrite h3, h2, h1, w3, w2, w1.
  assert (lx <= rx) by lia. assert (ty <= by_) by lia.
  rewrite <- Elx, <- Erx, <- Ety, <- Eby, !Z.min_id, !Z.max_id, !Z.min_l, !Z.max_r by done.
  destruct (decide (fi' = fi /\ 0 <= X < width s /\ 0 <= Y < height s /\ _)) as [HR | HR].
  - destruct HR as (-> & Hxw & Hyh & Hb).
    repeat (destruct (decide _) as [_ | ?]; [reflexivity |]).
    exfalso. destruct Hb as [[Hx [-> | ->]] | [[-> | ->] Hy]];
      match goal with H : ~ _ |- _ => apply H; lia end.
  - repeat (destruct (decide _) as [? | _]; [exfalso; apply HR; lia |]). reflexivity.
Qed.

Lemma draw_rect_on_frame_spec_witness :
  exists s', draw_rect_on_frame demo_sprite 1 1 1 0 0 4 = Done s' /\ wf s' /\
    width s' = width demo_sprite /\ height s' = height demo_sprite /\
    forall fi' X Y, frame_get_pixel s' fi' X Y =
      if decide (fi' = 1%nat /\ 0 <= X < width demo_sprite /\ 0 <= Y < height demo_sprite /\
                 ((Z.min 1 0 <= X <= Z.max 1 0 /\ (Y = Z.min 1 0 \/ Y = Z.max 1 0)) \/
                  ((X = Z.min 1 0 \/ X = Z.max 1 0) /\ Z.min 1 0 <= Y <= Z.max 1 0)))
      then Some 4 else frame_get_pixel demo_sprite fi' X Y.
Proof.
  apply draw_rect_on_frame_spec; first [apply demo_sprite_wf | unfold u8_ok; lia | simpl; lia].
Defined.

Lemma draw_line_on_frame_spec_witness :
  exists s', draw_line_on_frame demo_sprite 1 0 0 1 1 4 = Done s' /\ wf s' /\
    width s' = width demo_sprite /\ height s' = height demo_sprite /\
    (0 <= 0 < width demo_sprite -> 0 <= 0 < height demo_sprite -> frame_get_pixel s' 1 0 0 = Some 4) /\
    (0 <= 1 < width demo_sprite -> 0 <= 1 < height demo_sprite -> frame_get_pixel s' 1 1 1 = Some 4) /\
    (forall fi' X Y, frame_get_pixel s' fi' X Y = frame_get_pixel demo_sprite fi' X Y \/
       (fi' = 1%nat /\ Z.min 0 1 <= X <= Z.max 0 1 /\ Z.min 0 1 <= Y <= Z.max 0 1 /\
        frame_get_pixel s' fi' X Y = Some 4)).
Proof.
  apply draw_line_on_frame_spec; first [apply demo_sprite_wf | unfold u8_ok; lia | simpl; lia].
Defined.

Lemma foldM_opt_swap (s : SHP) (fi : nat) (c : Z) (pts : list (Z * Z)) :
  foldM_opt (fun s' (p : Z * Z) => frame_set_pixel s' fi p.1 p.2 c) s pts =
  foldM_opt (fun s' (yx : Z * Z) => frame_set_pixel s' fi yx.2 yx.1 c) s (map (fun p => (p.2, p.1)) pts).
Proof.
  revert s. induction pts as [| [x y] pts IH]; intros s; [done |].
  cbn [foldM_opt map fst snd]. destruct (frame_set_pixel s fi x y c); [apply IH | done].
Qed.

Lemma elem_of_map_swap (x y : Z) (pts : list (Z * Z)) :
  (y, x) ∈ map (fun p : Z * Z => (p.2, p.1)) pts <-> (x, y) ∈ pts.
Proof.
  rewrite !list_elem_of_In, in_map_iff. split.
  - intros ([a b] & He & Hin). simpl in He. by inversion He; subst.
  - intros Hin. by exists (x, y).
Qed.

Lemma paint_xy_law (s : SHP) (fi : nat) (c : Z) (pts : list (Z * Z)) :
  wf s -> (fi < length (frames s))%nat -> u8_ok c ->
  exists s', foldM_opt (fun s' (p : Z * Z) => frame_set_pixel s' fi p.1 p.2 c) s pts = Some s' /\
    wf s' /\ width s' = width s /\ height s' = height s /\
    length (frames s') = length (frames s) /\
    forall fi' x' y', frame_get_pixel s' fi' x' y' =
      if decide (fi' = fi /\ (x', y') ∈ pts /\ 0 <= x' < width s /\ 0 <= y' < height s)
      then Some c else frame_get_pixel s fi' x' y'.
Proof.
  intros Hs Hfi Hc. rewrite foldM_opt_swap.
  destruct (paint_points_law s fi c (map (fun p : Z * Z => (p.2, p.1)) pts) Hs Hfi Hc)
    as (s' & Hrun & Hs' & Hw & Hh & Hl & Hget).
  exists s'. do 5 (split; [done |]). intros fi' x' y'. rewrite Hget.
  apply decide_ext. rewrite elem_of_map_swap. done.
Qed.

Lemma circle_points_dist (cx cy x y X Y : Z) :
  -2 ^ 29 <= cx <= 2 ^ 29 -> -2 ^ 29 <= cy <= 2 ^ 29 ->
  -2 ^ 29 <= x <= 2 ^ 29 -> -2 ^ 29 <= y <= 2 ^ 29 ->
  (X, Y) ∈ circle_points cx cy x y -> (X - cx) ^ 2 + (Y - cy) ^ 2 = x ^ 2 + y ^ 2.
Proof.
  intros Hcx Hcy Hx Hy Hin. unfold circle_points in Hin.
  rewrite !(i32_wrap_id (cx + _)), !(i32_wrap_id (cx - _)), !(i32_wrap_id (cy + _)),
    !(i32_wrap_id (cy - _)) in Hin by lia.
  repeat (rewrite elem_of_cons in Hin; destruct Hin as [He | Hin]; [inversion He; subst; ring |]).
  by apply elem_of_nil in Hin.
Qed.

Section CircleLoop.
Variables (cx cy r c : Z) (fi : nat).
Hypothesis Hr : 1 <= r < 2 ^ 14.
Hypothesis Hcx : -2 ^ 28 <= cx < 2 ^ 28.
Hypothesis Hcy : -2 ^ 28 <= cy < 2 ^ 28.
Hypothesis Hc : u8_ok c.

Lemma circle_loop_spec (fuel : nat) (s : SHP) (x y err : Z) :
  wf s -> (fi < length (frames s))%nat ->
  -1 <= x <= r -> 0 <= y <= r + 1 -> -2 <= x - y ->
  err = x * x - x + (y + 1) * (y + 1) - r * r ->
  (y <= x -> x * x - x + y * y - r * r < 0 <= x * x + x + y * y - r * r) ->
  (1 <= fuel)%nat -> x - y + 2 <= Z.of_nat fuel ->
  exists s', circle_loop fuel s fi cx cy x y err c = Done s' /\ wf s' /\
    width s' = width s /\ height s' = height s /\ length (frames s') = length (frames s) /\
    (y <= x -> forall X Y, (X, Y) ∈ circle_points cx cy x y ->
       0 <= X < width s -> 0 <= Y < height s -> frame_get_pixel s' fi X Y = Some c) /\
    (forall fi' X Y, frame_get_pixel s' fi' X Y = frame_get_pixel s fi' X Y \/
       (fi' = fi /\ r * r - r <= (X - cx) ^ 2 + (Y - cy) ^ 2 <= r * r + r - 1 /\
        frame_get_pixel s' fi' X Y = Some c)).
Proof.
  revert s x y err. induction fuel as [| fuel IH]; intros s x y err Hs Hfi Hx Hy Hxy Herr Hinv Hf1 Hf;
    [lia |].
  cbn [circle_loop]. destruct (Z.leb_spec y x) as [Hle | Hlt].
  2: { exists s. do 5 (split; [done |]). split; [lia |]. intros. by left. }
  specialize (Hinv Hle).
  destruct (paint_xy_law s fi c (circle_points cx cy x y) Hs Hfi Hc)
    as (s1 & Hrun1 & Hs1 & Hw1 & Hh1 & Hl1 & Hget1).
  rewrite Hrun1.
  assert (Hd1 : forall fi' X Y, frame_get_pixel s1 fi' X Y = frame_get_pixel s fi' X Y \/
       (fi' = fi /\ r * r - r <= (X - cx) ^ 2 + (Y - cy) ^ 2 <= r * r + r - 1 /\
        frame_get_pixel s1 fi' X Y = Some c)).
  { intros fi' X Y. rewrite Hget1. destruct (decide _) as [(-> & Hin & _) | _]; [right | by left].
    split; [done |]. split; [| done].
    rewrite (circle_points_dist cx cy x y X Y) by (done || lia). nia. }
  assert (Hcur : forall X Y, (X, Y) ∈ circle_points cx cy x y ->
       0 <= X < width s -> 0 <= Y < height s -> frame_get_pixel s1 fi X Y = Some c).
  { intros X Y Hin HX HY. rewrite Hget1. by rewrite decide_True. }
  assert (Hk : forall x' y' err', -1 <= x' <= r -> 0 <= y' <= r + 1 -> -2 <= x' - y' ->
    err' = x' * x' - x' + (y' + 1) * (y' + 1) - r * r ->
    (y' <= x' -> x' * x' - x' + y' * y' - r * r < 0 <= x' * x' + x' + y' * y' - r * r) ->
    x' - y' < x - y ->
    exists s', circle_loop fuel s1 fi cx cy x' y' err' c = Done s' /\ wf s' /\
      width s' = width s /\ height s' = height s /\ length (frames s') = length (frames s) /\
      (y <= x -> forall X Y, (X, Y) ∈ circle_points cx cy x y ->
         0 <= X < width s -> 0 <= Y < height s -> frame_get_pixel s' fi X Y = Some c) /\
      (forall fi' X Y, frame_get_pixel s' fi' X Y = frame_get_pixel s fi' X Y \/
         (fi' = fi /\ r * r - r <= (X - cx) ^ 2 + (Y - cy) ^ 2 <= r * r + r - 1 /\
          frame_get_pixel s' fi' X Y = Some c))).
  { intros x' y' err' Hx' Hy' Hxy' Herr' Hinv' Hdec.
    destruct (IH s1 x' y' err' Hs1 ltac:(lia) Hx' Hy' Hxy' Herr' Hinv' ltac:(lia) ltac:(lia))
      as (s' & Hrun & Hs' & Hw & Hh & Hl & _ & Hd).
    exists s'. split; [done |]. split; [done |]. split; [lia |]. split; [lia |]. split; [lia |].
    split.
    - intros _ X Y Hin HX HY. destruct (Hd fi X Y) as [-> | (_ & _ & ?)]; [| done].
      by apply Hcur.
    - intros fi' X Y. destruct (Hd fi' X Y) as [-> | ?]; [apply Hd1 | by right]. }
  rewrite (i32_wrap_id (y + 1)) by lia.
  destruct (Z.ltb_spec err 0) as [Hneg | Hpos].
  - rewrite (i32_wrap_id (2 * (y + 1))), (i32_wrap_id (2 * (y + 1) + 1)) by lia.
    rewrite (i32_wrap_id (err + (2 * (y + 1) + 1))) by nia.
    apply Hk; try lia; try nia; intros _; split; nia.
  - rewrite (i32_wrap_id (x - 1)), (i32_wrap_id (y + 1 - (x - 1))) by lia.
    rewrite (i32_wrap_id (2 * (y + 1 - (x - 1)))), (i32_wrap_id (2 * (y + 1 - (x - 1)) + 1)) by lia.
    rewrite (i32_wrap_id (err + (2 * (y + 1 - (x - 1)) + 1))) by nia.
    apply Hk; try lia; try nia; intros Hle'; split; nia.
Qed.
End CircleLoop.

(** X15: For a radius [r] between 1 and [2^14 - 1] and a centre within [2^28]
    of the origin, [draw_circle_on_frame] on a well-formed sprite and an
    existing frame terminates, keeps the sprite well-formed and its size,
    paints the four points at distance [r] on the axes when they are on the
    canvas, and every pixel it changes gets the colour and has squared
    distance from the centre between [r*r - r] and [r*r + r - 1]. *)
Theorem draw_circle_on_frame_spec (s : SHP) (fi : nat) (cx cy r c : Z) :
  wf s -> (fi < length (frames s))%nat -> u8_ok c -> 1 <= r < 2 ^ 14 ->
  -2 ^ 28 <= cx < 2 ^ 28 -> -2 ^ 28 <= cy < 2 ^ 28 ->
  exists s', draw_circle_on_frame s fi cx cy r c = Done s' /\ wf s' /\
    width s' = width s /\ height s' = height s /\
    (forall X Y, (X, Y) ∈ [(cx + r, cy); (cx, cy + r); (cx - r, cy); (cx, cy - r)] ->
       0 <= X < width s -> 0 <= Y < height s -> frame_get_pixel s' fi X Y = Some c) /\
    (forall fi' X Y, frame_get_pixel s' fi' X Y = frame_get_pixel s fi' X Y \/
       (fi' = fi /\ r * r - r <= (X - cx) ^ 2 + (Y - cy) ^ 2 <= r * r + r - 1 /\
        frame_get_pixel s' fi' X Y = Some c)).
Proof.
  intros Hs Hfi Hc Hr Hcx Hcy. unfold draw_circle_on_frame.
  replace (r <=? 0) with false by (symmetry; apply Z.leb_gt; lia).
  rewrite (i32_wrap_id (1 - r)) by lia.
  destruct (circle_loop_spec cx cy r c fi Hr Hcx Hcy Hc (Z.to_nat (r + 2)) s r 0 (1 - r))
    as (s' & Hrun & Hs' & Hw & Hh & _ & Hcur & Hd); try done; try lia; try nia.
  exists s'. do 4 (split; [done |]). split; [| done].
  intros X Y Hin HX HY. apply Hcur; [lia | | done | done].
  unfold circle_points. rewrite !Z.add_0_r, !Z.sub_0_r, !(i32_wrap_id cx), !(i32_wrap_id cy),
    !(i32_wrap_id (cx + r)), !(i32_wrap_id (cx - r)), !(i32_wrap_id (cy + r)),
    !(i32_wrap_id (cy - r)) by lia.
  rewrite !elem_of_cons in Hin. destruct Hin as [-> | [-> | [-> | [-> | Hin]]]];
    [.. | by apply elem_of_nil in Hin];
    repeat (rewrite elem_of_cons; first [left; reflexivity | right]).
Qed.

Lemma draw_circle_on_frame_spec_witness :
  exists s', draw_circle_on_frame demo_sprite 1 0 0 1 7 = Done s' /\ wf s' /\
    width s' = width demo_sprite /\ height s' = height demo_sprite /\
    (forall X Y, (X, Y) ∈ [(0 + 1, 0); (0, 0 + 1); (0 - 1, 0); (0, 0 - 1)] ->
       0 <= X < width demo_sprite -> 0 <= Y < height demo_sprite ->
       frame_get_pixel s' 1 X Y = Some 7) /\
    (forall fi' X Y, frame_get_pixel s' fi' X Y = frame_get_pixel demo_sprite fi' X Y \/
       (fi' = 1%nat /\ 1 * 1 - 1 <= (X - 0) ^ 2 + (Y - 0) ^ 2 <= 1 * 1 + 1 - 1 /\
        frame_get_pixel s' fi' X Y = Some 7)).
Proof.
  apply draw_circle_on_frame_spec; first [apply demo_sprite_wf | unfold u8_ok; lia | simpl; lia].
Defined.
